(** * SSR reachability tracker and violation rules of [lib/rule-helpers.js]

    A shallow embedding of the visitor tables built by
    [reachableDuringSSRPartial], [noReferenceDuringSSR],
    [noPropertyAccessDuringSSR] and [noNodeEnvInSSR], together with the
    properties the specification states about them.

    The syntax tree is kept the way the linter sees it: a store of
    JavaScript objects addressed by reference, each object a finite map
    from field names to JavaScript values.  Node identity ([===] on
    objects) is equality of references; reading a field of [undefined]
    or [null] throws. *)

From Stdlib Require Import ZArith.
From stdpp Require Import base gmap strings list.

Open Scope string_scope.
Open Scope list_scope.

(** ** JavaScript values and objects *)

Abbreviation NodeRef := nat (only parsing).

Inductive value :=
  | VUndefined
  | VNull
  | VBool (b : bool)
  | VNum (z : Z)
  | VStr (s : string)
  | VRef (r : NodeRef).

#[global] Instance value_eq_dec : EqDecision value.
Proof. solve_decision. Defined.

Inductive error := TypeError.

Inductive result (A : Type) :=
  | Ok (a : A)
  | Throw (e : error).
Arguments Ok {A} a.
Arguments Throw {A} e.

#[global] Instance result_ret : MRet result := fun A a => Ok a.
#[global] Instance result_bind : MBind result := fun A B f m =>
  match m with
  | Ok a => f a
  | Throw e => Throw e
  end.

#[global] Instance result_fmap : FMap result := fun A B f m =>
  match m with
  | Ok a => Ok (f a)
  | Throw e => Throw e
  end.

(** Short-circuit conjunction of two conditions that may throw: the right
    operand is looked at only when the left one is true. *)
Definition and_then (c k : result bool) : result bool :=
  b ← c; if b : bool then k else Ok false.
Infix "&&&" := and_then (at level 40, left associativity).

(** Short-circuit disjunction. *)
Definition or_else (c k : result bool) : result bool :=
  b ← c; if b : bool then Ok true else k.
Infix "|||" := or_else (at level 50, left associativity).

(** [ToBoolean]. *)
Definition truthy (v : value) : bool :=
  match v with
  | VUndefined | VNull => false
  | VBool b => b
  | VNum z => negb (z =? 0)%Z
  | VStr s => negb (String.eqb s EmptyString)
  | VRef _ => true
  end.

(** Strict equality [===] (no [NaN] among the modelled numbers). *)
Definition strict_eq (a b : value) : bool := bool_decide (a = b).
Infix "===" := strict_eq (at level 70, no associativity).
Notation "a !== b" := (negb (strict_eq a b)) (at level 70, no associativity).

(** [Set.prototype.has] and [Array.prototype.includes] for collections of
    names: only a string can be found in them. *)
Definition set_has (s : gset string) (v : value) : bool :=
  match v with
  | VStr x => bool_decide (x ∈ s)
  | _ => false
  end.

Definition includes (l : list string) (v : value) : bool :=
  match v with
  | VStr x => bool_decide (x ∈ l)
  | _ => false
  end.

(** [Array.prototype.at] with a non-negative index. *)
Definition at_ (l : list string) (i : nat) : value :=
  match l !! i with
  | Some s => VStr s
  | None => VUndefined
  end.

(** ** The module information returned by the component analyzer *)

Record ModuleInfo := {
  lwcClassDeclaration : option NodeRef;
  moduleScopedFunctionsReachableDuringSSR : gset string;
  methodsReachableDuringSSR : gset string;
}.

(** ** The collaborators the helpers are linked against

    [ast] is the store of node objects of the file being linted.
    [analyze], [isSSREscape] and [isGlobalIdentifier] are the imported
    helpers; [getAncestors] and [getScope] are the two methods of the rule
    context, which answer for the node currently being visited.  Each
    field holds what the call returns when it returns; the calls
    themselves, which may throw, are those of [Calls] further down. *)

Class Host := {
  ast : gmap NodeRef (gmap string value);
  analyze : NodeRef → ModuleInfo;
  isSSREscape : NodeRef → bool;
  Scope : Type;
  getScope : NodeRef → Scope;
  getAncestors : NodeRef → list NodeRef;
  isGlobalIdentifier : NodeRef → Scope → bool;
}.

Section Objects.
Context `{Host}.

  (** The value stored under [k] in object [r]; [undefined] when absent. *)
Definition field (r : NodeRef) (k : string) : value :=
    match ast !! r with
    | Some o => default VUndefined (o !! k)
    | None => VUndefined
    end.

  (** Property read [v.k]. *)
Definition get (v : value) (k : string) : result value :=
    match v with
    | VUndefined | VNull => Throw TypeError
    | VRef r => Ok (field r k)
    | VBool _ | VNum _ | VStr _ => Ok VUndefined
    end.

  (** [v.k1.k2] and [v.k1.k2.k3]. *)
Definition get2 (v : value) (k1 k2 : string) : result value :=
    a ← get v k1; get a k2.
Definition get3 (v : value) (k1 k2 k3 : string) : result value :=
    a ← get v k1; b ← get a k2; get b k3.

(** The field [k] of the object [v] refers to; [undefined] when [v] is
    a primitive. *)
Definition fieldv (v : value) (k : string) : value :=
  match v with
  | VRef r => field r k
  | _ => VUndefined
  end.

(** Neither [undefined] nor [null]. *)
Definition present (v : value) : bool :=
  match v with
  | VUndefined | VNull => false
  | _ => true
  end.

(** The child and parent links ESTree requires of the node kinds the
    callbacks are registered for: function and arrow expressions,
    member accesses and identifiers have a parent; a variable declarator
    has an [id], a method definition a [key], a member access an [object]
    and a [property]. *)
Definition estree_links (node : NodeRef) : bool :=
  let parent := field node "parent" in
  let object := field node "object" in
  match field node "type" with
  | VStr ty =>
      if String.eqb ty "FunctionExpression" || String.eqb ty "ArrowFunctionExpression"
      then present parent
           && implb (fieldv parent "type" === VStr "VariableDeclarator")
                    (present (fieldv parent "id"))
      else if String.eqb ty "MethodDefinition" then present (field node "key")
      else if String.eqb ty "MemberExpression"
      then present parent && present object && present (field node "property")
           && implb (fieldv parent "type" === VStr "MemberExpression")
                    (present (fieldv parent "property"))
           && implb (fieldv object "type" === VStr "MemberExpression")
                    (present (fieldv object "property"))
      else if String.eqb ty "Identifier" then present parent
      else true
  | _ => true
  end.

(** The name of [v] when [v] is an [Identifier] node. *)
Definition identifier_name (v : value) : option string :=
  match v with
  | VRef r =>
      if field r "type" === VStr "Identifier"
      then match field r "name" with
           | VStr x => Some x
           | _ => None
           end
      else None
  | _ => None
  end.
End Objects.

(** ** The reachability tracker *)

Record tracker := {
  moduleInfo : option ModuleInfo;
  insideLWC : bool;
  reachableFunctionThatWeAreIn : option NodeRef;
  reachableMethodThatWeAreIn : option NodeRef;
  skippedBlockThatWeAreIn : option NodeRef;
}.

(** The closure variables right after [reachableDuringSSRPartial()]. *)
Definition reachableDuringSSRPartial : tracker := {|
  moduleInfo := None;
  insideLWC := false;
  reachableFunctionThatWeAreIn := None;
  reachableMethodThatWeAreIn := None;
  skippedBlockThatWeAreIn := None;
|}.

Definition set_moduleInfo (m : ModuleInfo) (st : tracker) : tracker :=
  {| moduleInfo := Some m;
     insideLWC := insideLWC st;
     reachableFunctionThatWeAreIn := reachableFunctionThatWeAreIn st;
     reachableMethodThatWeAreIn := reachableMethodThatWeAreIn st;
     skippedBlockThatWeAreIn := skippedBlockThatWeAreIn st |}.

Definition set_insideLWC (b : bool) (st : tracker) : tracker :=
  {| moduleInfo := moduleInfo st;
     insideLWC := b;
     reachableFunctionThatWeAreIn := reachableFunctionThatWeAreIn st;
     reachableMethodThatWeAreIn := reachableMethodThatWeAreIn st;
     skippedBlockThatWeAreIn := skippedBlockThatWeAreIn st |}.

Definition set_reachableFunction (n : option NodeRef) (st : tracker) : tracker :=
  {| moduleInfo := moduleInfo st;
     insideLWC := insideLWC st;
     reachableFunctionThatWeAreIn := n;
     reachableMethodThatWeAreIn := reachableMethodThatWeAreIn st;
     skippedBlockThatWeAreIn := skippedBlockThatWeAreIn st |}.

Definition set_reachableMethod (n : option NodeRef) (st : tracker) : tracker :=
  {| moduleInfo := moduleInfo st;
     insideLWC := insideLWC st;
     reachableFunctionThatWeAreIn := reachableFunctionThatWeAreIn st;
     reachableMethodThatWeAreIn := n;
     skippedBlockThatWeAreIn := skippedBlockThatWeAreIn st |}.

Definition set_skippedBlock (n : option NodeRef) (st : tracker) : tracker :=
  {| moduleInfo := moduleInfo st;
     insideLWC := insideLWC st;
     reachableFunctionThatWeAreIn := reachableFunctionThatWeAreIn st;
     reachableMethodThatWeAreIn := reachableMethodThatWeAreIn st;
     skippedBlockThatWeAreIn := n |}.

(** Reading a member of [moduleInfo], which is [undefined] until the
    [Program] callback has run. *)
Definition the_moduleInfo (st : tracker) : result ModuleInfo :=
  match moduleInfo st with
  | Some m => Ok m
  | None => Throw TypeError
  end.

Definition isInsideReachableMethod (st : tracker) : bool :=
  insideLWC st && bool_decide (is_Some (reachableMethodThatWeAreIn st)).
Definition isInsideReachableFunction (st : tracker) : bool :=
  bool_decide (is_Some (reachableFunctionThatWeAreIn st)).
Definition isInsideSkippedBlock (st : tracker) : bool :=
  bool_decide (is_Some (skippedBlockThatWeAreIn st)).

Module withinLWCVisitors.
Section Visitors.
Context `{Host}.

Definition Program (st : tracker) (node : NodeRef) : result tracker :=
    Ok (set_moduleInfo (analyze node) st).

Definition ClassDeclaration (st : tracker) (node : NodeRef) : result tracker :=
    mi ← the_moduleInfo st;
    Ok (if bool_decide (Some node = lwcClassDeclaration mi)
        then set_insideLWC true st else st).

Definition ClassDeclaration_exit (st : tracker) (node : NodeRef) : result tracker :=
    mi ← the_moduleInfo st;
    Ok (if bool_decide (Some node = lwcClassDeclaration mi)
        then set_insideLWC false st else st).

Definition FunctionDeclaration (st : tracker) (node : NodeRef) : result tracker :=
    c ← Ok (negb (bool_decide (is_Some (reachableFunctionThatWeAreIn st))))
        &&& (id ← get (VRef node) "id"; Ok (truthy id))
        &&& (ty ← get2 (VRef node) "id" "type"; Ok (ty === VStr "Identifier"))
        &&& (mi ← the_moduleInfo st;
             id ← get (VRef node) "id";
             arg ← (if truthy id then get id "name" else Ok id);
             Ok (set_has (moduleScopedFunctionsReachableDuringSSR mi) arg));
    Ok (if c : bool then set_reachableFunction (Some node) st else st).

Definition FunctionDeclaration_exit (st : tracker) (node : NodeRef) : result tracker :=
    Ok (if bool_decide (Some node = reachableFunctionThatWeAreIn st)
        then set_reachableFunction None st else st).

Definition FunctionExpression (st : tracker) (node : NodeRef) : result tracker :=
    c ← Ok (negb (bool_decide (is_Some (reachableFunctionThatWeAreIn st))))
        &&& (ty ← get2 (VRef node) "parent" "type"; Ok (ty === VStr "VariableDeclarator"))
        &&& (ty ← get3 (VRef node) "parent" "id" "type"; Ok (ty === VStr "Identifier"))
        &&& (mi ← the_moduleInfo st;
             name ← get3 (VRef node) "parent" "id" "name";
             Ok (set_has (moduleScopedFunctionsReachableDuringSSR mi) name));
    Ok (if c : bool then set_reachableFunction (Some node) st else st).

Definition FunctionExpression_exit (st : tracker) (node : NodeRef) : result tracker :=
    Ok (if bool_decide (Some node = reachableFunctionThatWeAreIn st)
        then set_reachableFunction None st else st).

Definition ArrowFunctionExpression (st : tracker) (node : NodeRef) : result tracker :=
    c ← Ok (negb (bool_decide (is_Some (reachableFunctionThatWeAreIn st))))
        &&& (ty ← get2 (VRef node) "parent" "type"; Ok (ty === VStr "VariableDeclarator"))
        &&& (ty ← get3 (VRef node) "parent" "id" "type"; Ok (ty === VStr "Identifier"))
        &&& (mi ← the_moduleInfo st;
             name ← get3 (VRef node) "parent" "id" "name";
             Ok (set_has (moduleScopedFunctionsReachableDuringSSR mi) name));
    Ok (if c : bool then set_reachableFunction (Some node) st else st).

Definition ArrowFunctionExpression_exit (st : tracker) (node : NodeRef) : result tracker :=
    Ok (if bool_decide (Some node = reachableFunctionThatWeAreIn st)
        then set_reachableFunction None st else st).

Definition MethodDefinition (st : tracker) (node : NodeRef) : result tracker :=
    c ← Ok (insideLWC st)
        &&& (ty ← get2 (VRef node) "key" "type"; Ok (ty === VStr "Identifier"))
        &&& (mi ← the_moduleInfo st;
             name ← get2 (VRef node) "key" "name";
             Ok (set_has (methodsReachableDuringSSR mi) name));
    Ok (if c : bool then set_reachableMethod (Some node) st else st).

Definition MethodDefinition_exit (st : tracker) (node : NodeRef) : result tracker :=
    Ok (set_reachableMethod None st).

Definition IfStatement (st : tracker) (node : NodeRef) : result tracker :=
    Ok (if isSSREscape node then set_skippedBlock (Some node) st else st).

Definition IfStatement_exit (st : tracker) (node : NodeRef) : result tracker :=
    Ok (if bool_decide (skippedBlockThatWeAreIn st = Some node)
        then set_skippedBlock None st else st).
End Visitors.
End withinLWCVisitors.

(** ** Module scope *)

Definition moduleScopeDisqualifiers : gset string :=
  {[ "FunctionDeclaration"; "FunctionExpression"; "ArrowFunctionExpression" ]}.

Section ModuleScope.
Context `{Host}.

  (** The loop of [inModuleScope] over [context.getAncestors()]. *)
Fixpoint inModuleScope_loop (ancestors : list NodeRef) : bool :=
    match ancestors with
    | [] => true
    | ancestor :: rest =>
        if set_has moduleScopeDisqualifiers (field ancestor "type")
        then false
        else inModuleScope_loop rest
    end.

Definition inModuleScope (node : NodeRef) : bool :=
    inModuleScope_loop (getAncestors node).

  (** The test in front of the rules of [noReferenceDuringSSR] and
      [noNodeEnvInSSR]: when it is true the callback returns at once. *)
Definition notReachable (st : tracker) (node : NodeRef) : bool :=
    (negb (isInsideReachableMethod st)
     && negb (isInsideReachableFunction st)
     && negb (inModuleScope node))
    || isInsideSkippedBlock st.
End ModuleScope.

(** ** Violations handed to [context.report] *)

Record report := {
  messageId : value;
  reported : NodeRef;
  data_identifier : value;
  data_property : option value;
}.

Module noReferenceDuringSSR.
Section Rule.
Context `{Host}.
Variable forbiddenGlobalNames : gset string.
Variable messageIds : list string.

  (** Each callback returns the reports it hands to [context.report]. *)
Definition MemberExpression (st : tracker) (node : NodeRef) : result (list report) :=
    if notReachable st node then Ok []
    else
      b ← (ty ← get2 (VRef node) "parent" "type"; Ok (ty === VStr "MemberExpression"))
          &&& (ty ← get2 (VRef node) "object" "type"; Ok (ty === VStr "Identifier"))
          &&& (n ← get2 (VRef node) "object" "name"; Ok (n === VStr "globalThis"))
          &&& (ty ← get2 (VRef node) "property" "type"; Ok (ty === VStr "Identifier"))
          &&& (n ← get2 (VRef node) "property" "name"; Ok (set_has forbiddenGlobalNames n))
          &&& (o ← get2 (VRef node) "parent" "optional"; Ok (o !== VBool true))
          &&& (o ← get (VRef node) "object";
               Ok (match o with
                   | VRef r => isGlobalIdentifier r (getScope node)
                   | _ => false
                   end));
      if b : bool then
        identifier ← get2 (VRef node) "property" "name";
        property ← get3 (VRef node) "parent" "property" "name";
        Ok [ {| messageId := at_ messageIds 1;
                reported := node;
                data_identifier := identifier;
                data_property := Some property |} ]
      else
        a ← (ty ← get2 (VRef node) "parent" "type"; Ok (ty !== VStr "MemberExpression"))
            &&& (ty ← get2 (VRef node) "object" "type"; Ok (ty === VStr "Identifier"))
            &&& ((n ← get2 (VRef node) "object" "name"; Ok (set_has forbiddenGlobalNames n))
                 ||| ((n ← get2 (VRef node) "object" "name"; Ok (n === VStr "globalThis"))
                      &&& (o ← get (VRef node) "optional"; Ok (o !== VBool true))))
            &&& (o ← get (VRef node) "object";
                 Ok (match o with
                     | VRef r => isGlobalIdentifier r (getScope node)
                     | _ => false
                     end));
        if a : bool then
          n ← get2 (VRef node) "object" "name";
          identifier ← (if n === VStr "globalThis"
                        then get2 (VRef node) "property" "name"
                        else get2 (VRef node) "object" "name");
          Ok [ {| messageId := at_ messageIds 0;
                  reported := node;
                  data_identifier := identifier;
                  data_property := None |} ]
        else Ok [].

Definition Identifier (st : tracker) (node : NodeRef) : result (list report) :=
    if notReachable st node then Ok []
    else
      a ← (ty ← get2 (VRef node) "parent" "type"; Ok (ty !== VStr "MemberExpression"))
          &&& (n ← get (VRef node) "name"; Ok (set_has forbiddenGlobalNames n))
          &&& Ok (isGlobalIdentifier node (getScope node));
      if a : bool then
        identifier ← get (VRef node) "name";
        Ok [ {| messageId := at_ messageIds 0;
                reported := node;
                data_identifier := identifier;
                data_property := None |} ]
      else Ok [].
End Rule.
End noReferenceDuringSSR.

Module noPropertyAccessDuringSSR.
Section Rule.
Context `{Host}.
Variable forbiddenPropertyNames : list string.

  (** The callback returns the nodes it passes to [reporter]. *)
Definition MemberExpression (st : tracker) (node : NodeRef) : result (list NodeRef) :=
    if negb (isInsideReachableMethod st) || isInsideSkippedBlock st then Ok []
    else
      c ← (ty ← get2 (VRef node) "object" "type"; Ok (ty === VStr "ThisExpression"))
          &&& (ty ← get2 (VRef node) "property" "type"; Ok (ty === VStr "Identifier"))
          &&& (n ← get2 (VRef node) "property" "name"; Ok (includes forbiddenPropertyNames n));
      Ok (if c : bool then [node] else []).
End Rule.
End noPropertyAccessDuringSSR.

Module noNodeEnvInSSR.
Section Rule.
Context `{Host}.

Definition MemberExpression (st : tracker) (node : NodeRef) : result (list report) :=
    if notReachable st node then Ok []
    else
      c ← (ty ← get2 (VRef node) "property" "type"; Ok (ty === VStr "Identifier"))
          &&& (n ← get2 (VRef node) "property" "name"; Ok (n === VStr "NODE_ENV"))
          &&& (ty ← get2 (VRef node) "object" "type"; Ok (ty === VStr "MemberExpression"))
          &&& (o ← get2 (VRef node) "object" "object"; Ok (truthy o))
          &&& (ty ← get3 (VRef node) "object" "object" "type"; Ok (ty === VStr "Identifier"))
          &&& (n ← get3 (VRef node) "object" "object" "name"; Ok (n === VStr "process"))
          &&& (ty ← get3 (VRef node) "object" "property" "type"; Ok (ty === VStr "Identifier"))
          &&& (n ← get3 (VRef node) "object" "property" "name"; Ok (n === VStr "env"));
      if c : bool then
        identifier ← get2 (VRef node) "property" "name";
        Ok [ {| messageId := VStr "nodeEnvFound";
                reported := node;
                data_identifier := identifier;
                data_property := None |} ]
      else Ok [].
End Rule.
End noNodeEnvInSSR.

(** ** The traversal driver

    The linter walks the tree in document order and, for every node, calls
    the listener registered under the node's [type] on the way down and
    the one registered under [type:exit] on the way up. *)

Inductive event :=
  | Enter (node : NodeRef)
  | Exit (node : NodeRef).

#[global] Instance event_eq_dec : EqDecision event.
Proof. solve_decision. Defined.

#[warnings="-register-all"]
Inductive tree := Node (node : NodeRef) (children : list tree).

Fixpoint events (t : tree) : list event :=
  match t with
  | Node n cs => Enter n :: flat_map events cs ++ [Exit n]
  end.

Fixpoint nodes (t : tree) : list NodeRef :=
  match t with
  | Node n cs => n :: flat_map nodes cs
  end.

Fixpoint run {S : Type} (step : S → event → result S) (s : S) (evs : list event)
  : result S :=
  match evs with
  | [] => Ok s
  | e :: rest => s' ← step s e; run step s' rest
  end.

Section Driver.
Context `{Host}.

(** Dispatch over the keys of [withinLWCVisitors]. *)
Definition tracker_enter (ty : string) (st : tracker) (node : NodeRef) : result tracker :=
  if String.eqb ty "Program" then withinLWCVisitors.Program st node
  else if String.eqb ty "ClassDeclaration" then withinLWCVisitors.ClassDeclaration st node
  else if String.eqb ty "FunctionDeclaration" then withinLWCVisitors.FunctionDeclaration st node
  else if String.eqb ty "FunctionExpression" then withinLWCVisitors.FunctionExpression st node
  else if String.eqb ty "ArrowFunctionExpression"
       then withinLWCVisitors.ArrowFunctionExpression st node
  else if String.eqb ty "MethodDefinition" then withinLWCVisitors.MethodDefinition st node
  else if String.eqb ty "IfStatement" then withinLWCVisitors.IfStatement st node
  else Ok st.

Definition tracker_exit (ty : string) (st : tracker) (node : NodeRef) : result tracker :=
  if String.eqb ty "ClassDeclaration" then withinLWCVisitors.ClassDeclaration_exit st node
  else if String.eqb ty "FunctionDeclaration"
       then withinLWCVisitors.FunctionDeclaration_exit st node
  else if String.eqb ty "FunctionExpression"
       then withinLWCVisitors.FunctionExpression_exit st node
  else if String.eqb ty "ArrowFunctionExpression"
       then withinLWCVisitors.ArrowFunctionExpression_exit st node
  else if String.eqb ty "MethodDefinition" then withinLWCVisitors.MethodDefinition_exit st node
  else if String.eqb ty "IfStatement" then withinLWCVisitors.IfStatement_exit st node
  else Ok st.

(** One event delivered to the tracker alone. *)
Definition tracker_step (st : tracker) (ev : event) : result tracker :=
  match ev with
  | Enter node =>
      match field node "type" with
      | VStr ty => tracker_enter ty st node
      | _ => Ok st
      end
  | Exit node =>
      match field node "type" with
      | VStr ty => tracker_exit ty st node
      | _ => Ok st
      end
  end.

(** One event delivered to a rule: the visitor table is the tracker's,
    extended with the rule's own entry callbacks [own], which only read
    the tracker and append to what has been reported so far. *)
Definition rule_step {R : Type}
    (own : string → option (tracker → NodeRef → result (list R)))
    (s : tracker * list R) (ev : event) : result (tracker * list R) :=
  match ev with
  | Enter node =>
      match field node "type" with
      | VStr ty =>
          match own ty with
          | Some callback => out ← callback s.1 node; Ok (s.1, s.2 ++ out)
          | None => st ← tracker_enter ty s.1 node; Ok (st, s.2)
          end
      | _ => Ok s
      end
  | Exit node => st ← tracker_step s.1 (Exit node); Ok (st, s.2)
  end.

Definition noReferenceDuringSSR_own (forbiddenGlobalNames : gset string)
    (messageIds : list string) (ty : string)
  : option (tracker → NodeRef → result (list report)) :=
  if String.eqb ty "MemberExpression"
  then Some (noReferenceDuringSSR.MemberExpression forbiddenGlobalNames messageIds)
  else if String.eqb ty "Identifier"
  then Some (noReferenceDuringSSR.Identifier forbiddenGlobalNames messageIds)
  else None.

Definition noPropertyAccessDuringSSR_own (forbiddenPropertyNames : list string)
    (ty : string) : option (tracker → NodeRef → result (list NodeRef)) :=
  if String.eqb ty "MemberExpression"
  then Some (noPropertyAccessDuringSSR.MemberExpression forbiddenPropertyNames)
  else None.

Definition noNodeEnvInSSR_own (ty : string)
  : option (tracker → NodeRef → result (list report)) :=
  if String.eqb ty "MemberExpression"
  then Some noNodeEnvInSSR.MemberExpression
  else None.

(** A whole traversal under each rule, from a fresh tracker. *)
Definition lint_noReferenceDuringSSR (forbiddenGlobalNames : gset string)
    (messageIds : list string) (evs : list event) : result (tracker * list report) :=
  run (rule_step (noReferenceDuringSSR_own forbiddenGlobalNames messageIds))
      (reachableDuringSSRPartial, []) evs.

Definition lint_noPropertyAccessDuringSSR (forbiddenPropertyNames : list string)
    (evs : list event) : result (tracker * list NodeRef) :=
  run (rule_step (noPropertyAccessDuringSSR_own forbiddenPropertyNames))
      (reachableDuringSSRPartial, []) evs.

Definition lint_noNodeEnvInSSR (evs : list event) : result (tracker * list report) :=
  run (rule_step noNodeEnvInSSR_own) (reachableDuringSSRPartial, []) evs.
End Driver.

(** ** Vocabulary of the properties *)

Section Vocabulary.
Context `{Host}.

(** Whether a function known under [name] is one of the module-scoped
    functions reachable during SSR. *)
Definition reachable_name (mi : ModuleInfo) (name : option string) : bool :=
  match name with
  | Some x => bool_decide (x ∈ moduleScopedFunctionsReachableDuringSSR mi)
  | None => false
  end.

Definition function_type (ty : string) : Prop :=
  ty = "FunctionDeclaration" ∨ ty = "FunctionExpression"
  ∨ ty = "ArrowFunctionExpression".

(** Document order: a node is left only after it has been entered. *)
Definition ordered (l : list event) : Prop :=
  ∀ i j m, l !! i = Some (Enter m) → l !! j = Some (Exit m) → i < j.

(** A node held by a slot has been entered, has not been left, and is of
    the kind the slot is for. *)
Definition holds (pre : list event) (kind : string → Prop) (slot : option NodeRef)
  : Prop :=
  ∀ n, slot = Some n →
    Enter n ∈ pre ∧ (Exit n ∉ pre) ∧ ∃ ty, field n "type" = VStr ty ∧ kind ty.

Definition contained (pre : list event) (st : tracker) : Prop :=
  holds pre function_type (reachableFunctionThatWeAreIn st)
  ∧ holds pre (λ ty, ty = "MethodDefinition") (reachableMethodThatWeAreIn st)
  ∧ holds pre (λ ty, ty = "IfStatement") (skippedBlockThatWeAreIn st).

Definition event_node (ev : event) : NodeRef :=
  match ev with
  | Enter node | Exit node => node
  end.

Definition root (t : tree) : NodeRef :=
  match t with
  | Node n _ => n
  end.

(** The tracker has its module information, or is about to get it. *)
Definition primed (st : tracker) (ev : event) : Prop :=
  is_Some (moduleInfo st)
  ∨ ∃ node, ev = Enter node ∧ field node "type" = VStr "Program".

(** A callback of a rule that, on the nodes it is registered for, returns
    and reports at most once. *)
Definition total_callback {R : Type} (ty : string)
    (callback : tracker → NodeRef → result (list R)) : Prop :=
  ∀ st node, field node "type" = VStr ty → estree_links node = true →
    ∃ out, callback st node = Ok out ∧ (List.length out ≤ 1)%nat.

(** A visitor table whose own callbacks are all total. *)
Definition total_table {R : Type}
    (own : string → option (tracker → NodeRef → result (list R))) : Prop :=
  ∀ ty callback, own ty = Some callback →
    ty ≠ "Program" ∧ total_callback ty callback.

(** A rule whose callbacks never throw: one event at a time, and along a
    whole traversal.  An event either leaves what has been reported as it
    is, or leaves the tracker as it is and adds one report. *)
Definition total_rule {R : Type}
    (own : string → option (tracker → NodeRef → result (list R))) : Prop :=
  (∀ s ev,
     estree_links (event_node ev) = true →
     primed s.1 ev →
     ∃ s', rule_step own s ev = Ok s'
           ∧ is_Some (moduleInfo s'.1)
           ∧ (s'.2 = s.2 ∨ (s'.1 = s.1 ∧ ∃ r, s'.2 = s.2 ++ [r])))
  ∧ (∀ t pre post,
       field (root t) "type" = VStr "Program" →
       Forall (λ n, estree_links n = true) (nodes t) →
       events t = pre ++ post →
       ∃ s', run (rule_step own) (reachableDuringSSRPartial, []) pre = Ok s').

(** What a traversal has reported. *)
Definition violations {R : Type} (r : result (tracker * list R)) : result (list R) :=
  snd <$> r.
End Vocabulary.

(** ** Vocabulary of the further properties *)

Section MoreVocabulary.
Context `{Host}.

(** The only node of type [Program] in the tree is its root. *)
Definition single_program (t : tree) : bool :=
  forallb (λ n, implb (field n "type" === VStr "Program") (Nat.eqb n (root t)))
          (nodes t).

(** Leaving a conditional statement that is a recognised escape guard. *)
Definition guard_exit (ev : event) : bool :=
  match ev with
  | Enter _ => false
  | Exit m => (field m "type" === VStr "IfStatement") && isSSREscape m
  end.

Definition no_guard_left (evs : list event) : bool :=
  forallb (λ ev, negb (guard_exit ev)) evs.

(** Leaving a method definition or a class declaration. *)
Definition method_or_class_exit (ev : event) : bool :=
  match ev with
  | Enter _ => false
  | Exit m =>
      (field m "type" === VStr "MethodDefinition")
      || (field m "type" === VStr "ClassDeclaration")
  end.

Definition no_method_or_class_left (evs : list event) : bool :=
  forallb (λ ev, negb (method_or_class_exit ev)) evs.

(** A node that has been entered and not left. *)
Definition open_in (pre : list event) (m : NodeRef) : Prop :=
  Enter m ∈ pre ∧ Exit m ∉ pre.
(** The component class, as the analyzer named it for the root, is open
    whenever the tracker says the walk is inside it. *)
Definition class_contained (r : NodeRef) (pre : list event) (st : tracker) : Prop :=
  (moduleInfo st = None ∨ moduleInfo st = Some (analyze r))
  ∧ (insideLWC st = true →
     moduleInfo st = Some (analyze r)
     ∧ ∃ c, lwcClassDeclaration (analyze r) = Some c
            ∧ open_in pre c
            ∧ field c "type" = VStr "ClassDeclaration").

(** The keys of a rule's own callbacks are none of the tracker's. *)
Definition beside_tracker {R : Type}
    (own : string → option (tracker → NodeRef → result (list R))) : Prop :=
  ∀ ty callback, own ty = Some callback →
    ∀ st node, tracker_enter ty st node = Ok st.
End MoreVocabulary.

(** ** Vocabulary of reachability *)

Section ReachabilityVocabulary.
Context `{Host}.

(** The name a function goes by: the identifier of a function
    declaration, or the identifier of the variable declarator that a
    function or arrow expression sits under. *)
Definition function_binding (f : NodeRef) : option string :=
  match field f "type" with
  | VStr ty =>
      if String.eqb ty "FunctionDeclaration" then identifier_name (field f "id")
      else if String.eqb ty "FunctionExpression" || String.eqb ty "ArrowFunctionExpression"
      then if fieldv (field f "parent") "type" === VStr "VariableDeclarator"
           then identifier_name (fieldv (field f "parent") "id")
           else None
      else None
  | _ => None
  end.

(** A function that the analyzer's [moduleScopedFunctionsReachableDuringSSR]
    names. *)
Definition reachable_function (mi : ModuleInfo) (f : NodeRef) : bool :=
  reachable_name mi (function_binding f).

(** A method definition whose key is an identifier that the analyzer's
    [methodsReachableDuringSSR] names. *)
Definition reachable_method (mi : ModuleInfo) (m : NodeRef) : bool :=
  (field m "type" === VStr "MethodDefinition")
  && match identifier_name (field m "key") with
     | Some x => bool_decide (x ∈ methodsReachableDuringSSR mi)
     | None => false
     end.

(** The nodes in the function and method slots are ones the analyzer
    named for the root. *)
Definition slots_named (r : NodeRef) (st : tracker) : Prop :=
  (moduleInfo st = None ∨ moduleInfo st = Some (analyze r))
  ∧ (∀ f, reachableFunctionThatWeAreIn st = Some f →
          reachable_function (analyze r) f = true)
  ∧ (∀ m, reachableMethodThatWeAreIn st = Some m →
          reachable_method (analyze r) m = true).
End ReachabilityVocabulary.

(** ** The callbacks with their calls out of the file

    [analyze], [isSSREscape] and [isGlobalIdentifier] are imported,
    [getAncestors], [getScope] and [report] are methods of the rule
    context, and [reporter] is an argument of [noPropertyAccessDuringSSR]:
    code that is not in this file, that may throw, and that no callback
    calls under a [try].  [Host] holds what the first five return when
    they return; [Calls] holds the calls themselves, and the definitions
    below are the callbacks that make them, with a throw passed on to the
    caller. *)

Record Calls (Scope : Type) := {
  call_analyze : NodeRef → result ModuleInfo;
  call_isSSREscape : NodeRef → result bool;
  call_getAncestors : NodeRef → result (list NodeRef);
  call_getScope : NodeRef → result Scope;
  call_isGlobalIdentifier : NodeRef → Scope → result bool;
  call_report : report → result unit;
  call_reporter : NodeRef → result unit;
}.
Arguments call_analyze {Scope}.
Arguments call_isSSREscape {Scope}.
Arguments call_getAncestors {Scope}.
Arguments call_getScope {Scope}.
Arguments call_isGlobalIdentifier {Scope}.
Arguments call_report {Scope}.
Arguments call_reporter {Scope}.

Module Calling.
Section Callbacks.
Context `{Host}.
Variable calls : Calls Scope.

Definition Program (st : tracker) (node : NodeRef) : result tracker :=
  mi ← call_analyze calls node;
  Ok (set_moduleInfo mi st).

Definition IfStatement (st : tracker) (node : NodeRef) : result tracker :=
  escape ← call_isSSREscape calls node;
  Ok (if escape : bool then set_skippedBlock (Some node) st else st).

Definition inModuleScope (node : NodeRef) : result bool :=
  ancestors ← call_getAncestors calls node;
  Ok (inModuleScope_loop ancestors).

Definition notReachable (st : tracker) (node : NodeRef) : result bool :=
  (Ok (negb (isInsideReachableMethod st))
   &&& Ok (negb (isInsideReachableFunction st))
   &&& (b ← inModuleScope node; Ok (negb b)))
  ||| Ok (isInsideSkippedBlock st).

(** [isGlobalIdentifier(o, context.getScope())]. *)
Definition isGlobal (o : value) (node : NodeRef) : result bool :=
  scope ← call_getScope calls node;
  match o with
  | VRef r => call_isGlobalIdentifier calls r scope
  | _ => Ok false
  end.

(** [context.report(r)]: what is handed over is the callback's output. *)
Definition context_report (r : report) : result (list report) :=
  call_report calls r;; Ok [r].

(** [reporter(node)]. *)
Definition reporter (node : NodeRef) : result (list NodeRef) :=
  call_reporter calls node;; Ok [node].

Definition tracker_enter (ty : string) (st : tracker) (node : NodeRef) : result tracker :=
  if String.eqb ty "Program" then Program st node
  else if String.eqb ty "ClassDeclaration" then withinLWCVisitors.ClassDeclaration st node
  else if String.eqb ty "FunctionDeclaration" then withinLWCVisitors.FunctionDeclaration st node
  else if String.eqb ty "FunctionExpression" then withinLWCVisitors.FunctionExpression st node
  else if String.eqb ty "ArrowFunctionExpression"
       then withinLWCVisitors.ArrowFunctionExpression st node
  else if String.eqb ty "MethodDefinition" then withinLWCVisitors.MethodDefinition st node
  else if String.eqb ty "IfStatement" then IfStatement st node
  else Ok st.

Section ReferenceRule.
Variable forbiddenGlobalNames : gset string.
Variable messageIds : list string.

Definition noReferenceDuringSSR_MemberExpression (st : tracker) (node : NodeRef)
  : result (list report) :=
  gate ← notReachable st node;
  if gate : bool then Ok []
  else
    b ← (ty ← get2 (VRef node) "parent" "type"; Ok (ty === VStr "MemberExpression"))
        &&& (ty ← get2 (VRef node) "object" "type"; Ok (ty === VStr "Identifier"))
        &&& (n ← get2 (VRef node) "object" "name"; Ok (n === VStr "globalThis"))
        &&& (ty ← get2 (VRef node) "property" "type"; Ok (ty === VStr "Identifier"))
        &&& (n ← get2 (VRef node) "property" "name"; Ok (set_has forbiddenGlobalNames n))
        &&& (o ← get2 (VRef node) "parent" "optional"; Ok (o !== VBool true))
        &&& (o ← get (VRef node) "object"; isGlobal o node);
    if b : bool then
      identifier ← get2 (VRef node) "property" "name";
      property ← get3 (VRef node) "parent" "property" "name";
      context_report {| messageId := at_ messageIds 1;
                        reported := node;
                        data_identifier := identifier;
                        data_property := Some property |}
    else
      a ← (ty ← get2 (VRef node) "parent" "type"; Ok (ty !== VStr "MemberExpression"))
          &&& (ty ← get2 (VRef node) "object" "type"; Ok (ty === VStr "Identifier"))
          &&& ((n ← get2 (VRef node) "object" "name"; Ok (set_has forbiddenGlobalNames n))
               ||| ((n ← get2 (VRef node) "object" "name"; Ok (n === VStr "globalThis"))
                    &&& (o ← get (VRef node) "optional"; Ok (o !== VBool true))))
          &&& (o ← get (VRef node) "object"; isGlobal o node);
      if a : bool then
        n ← get2 (VRef node) "object" "name";
        identifier ← (if n === VStr "globalThis"
                      then get2 (VRef node) "property" "name"
                      else get2 (VRef node) "object" "name");
        context_report {| messageId := at_ messageIds 0;
                          reported := node;
                          data_identifier := identifier;
                          data_property := None |}
      else Ok [].

Definition noReferenceDuringSSR_Identifier (st : tracker) (node : NodeRef)
  : result (list report) :=
  gate ← notReachable st node;
  if gate : bool then Ok []
  else
    a ← (ty ← get2 (VRef node) "parent" "type"; Ok (ty !== VStr "MemberExpression"))
        &&& (n ← get (VRef node) "name"; Ok (set_has forbiddenGlobalNames n))
        &&& isGlobal (VRef node) node;
    if a : bool then
      identifier ← get (VRef node) "name";
      context_report {| messageId := at_ messageIds 0;
                        reported := node;
                        data_identifier := identifier;
                        data_property := None |}
    else Ok [].

Definition noReferenceDuringSSR_own (ty : string)
  : option (tracker → NodeRef → result (list report)) :=
  if String.eqb ty "MemberExpression" then Some noReferenceDuringSSR_MemberExpression
  else if String.eqb ty "Identifier" then Some noReferenceDuringSSR_Identifier
  else None.
End ReferenceRule.

Definition noNodeEnvInSSR_MemberExpression (st : tracker) (node : NodeRef)
  : result (list report) :=
  gate ← notReachable st node;
  if gate : bool then Ok []
  else
    c ← (ty ← get2 (VRef node) "property" "type"; Ok (ty === VStr "Identifier"))
        &&& (n ← get2 (VRef node) "property" "name"; Ok (n === VStr "NODE_ENV"))
        &&& (ty ← get2 (VRef node) "object" "type"; Ok (ty === VStr "MemberExpression"))
        &&& (o ← get2 (VRef node) "object" "object"; Ok (truthy o))
        &&& (ty ← get3 (VRef node) "object" "object" "type"; Ok (ty === VStr "Identifier"))
        &&& (n ← get3 (VRef node) "object" "object" "name"; Ok (n === VStr "process"))
        &&& (ty ← get3 (VRef node) "object" "property" "type"; Ok (ty === VStr "Identifier"))
        &&& (n ← get3 (VRef node) "object" "property" "name"; Ok (n === VStr "env"));
    if c : bool then
      identifier ← get2 (VRef node) "property" "name";
      context_report {| messageId := VStr "nodeEnvFound";
                        reported := node;
                        data_identifier := identifier;
                        data_property := None |}
    else Ok [].

Definition noNodeEnvInSSR_own (ty : string)
  : option (tracker → NodeRef → result (list report)) :=
  if String.eqb ty "MemberExpression" then Some noNodeEnvInSSR_MemberExpression
  else None.

Definition noPropertyAccessDuringSSR_MemberExpression
    (forbiddenPropertyNames : list string) (st : tracker) (node : NodeRef)
  : result (list NodeRef) :=
  if negb (isInsideReachableMethod st) || isInsideSkippedBlock st then Ok []
  else
    c ← (ty ← get2 (VRef node) "object" "type"; Ok (ty === VStr "ThisExpression"))
        &&& (ty ← get2 (VRef node) "property" "type"; Ok (ty === VStr "Identifier"))
        &&& (n ← get2 (VRef node) "property" "name"; Ok (includes forbiddenPropertyNames n));
    if c : bool then reporter node else Ok [].

Definition noPropertyAccessDuringSSR_own (forbiddenPropertyNames : list string)
    (ty : string) : option (tracker → NodeRef → result (list NodeRef)) :=
  if String.eqb ty "MemberExpression"
  then Some (noPropertyAccessDuringSSR_MemberExpression forbiddenPropertyNames)
  else None.

(** One event delivered to a rule, the calls included. *)
Definition rule_step {R : Type}
    (own : string → option (tracker → NodeRef → result (list R)))
    (s : tracker * list R) (ev : event) : result (tracker * list R) :=
  match ev with
  | Enter node =>
      match field node "type" with
      | VStr ty =>
          match own ty with
          | Some callback => out ← callback s.1 node; Ok (s.1, s.2 ++ out)
          | None => st ← tracker_enter ty s.1 node; Ok (st, s.2)
          end
      | _ => Ok s
      end
  | Exit node => st ← tracker_step s.1 (Exit node); Ok (st, s.2)
  end.

(** A whole traversal under each rule, from a fresh tracker. *)
Definition lint_noReferenceDuringSSR (forbiddenGlobalNames : gset string)
    (messageIds : list string) (evs : list event) : result (tracker * list report) :=
  run (rule_step (noReferenceDuringSSR_own forbiddenGlobalNames messageIds))
      (reachableDuringSSRPartial, []) evs.

Definition lint_noPropertyAccessDuringSSR (forbiddenPropertyNames : list string)
    (evs : list event) : result (tracker * list NodeRef) :=
  run (rule_step (noPropertyAccessDuringSSR_own forbiddenPropertyNames))
      (reachableDuringSSRPartial, []) evs.

Definition lint_noNodeEnvInSSR (evs : list event) : result (tracker * list report) :=
  run (rule_step noNodeEnvInSSR_own) (reachableDuringSSRPartial, []) evs.
End Callbacks.
End Calling.

Section CallsVocabulary.
Context `{Host}.

(** Every call returns, with the value [Host] holds for it where it has
    one. *)
Definition returning (calls : Calls Scope) : Prop :=
  (∀ n, call_analyze calls n = Ok (analyze n))
  ∧ (∀ n, call_isSSREscape calls n = Ok (isSSREscape n))
  ∧ (∀ n, call_getAncestors calls n = Ok (getAncestors n))
  ∧ (∀ n, call_getScope calls n = Ok (getScope n))
  ∧ (∀ n scope, call_isGlobalIdentifier calls n scope = Ok (isGlobalIdentifier n scope))
  ∧ (∀ r, call_report calls r = Ok ())
  ∧ (∀ n, call_reporter calls n = Ok ()).

(** The calls of a host all of whose collaborators return. *)
Definition calls_of_host : Calls Scope := {|
  call_analyze := λ n, Ok (analyze n);
  call_isSSREscape := λ n, Ok (isSSREscape n);
  call_getAncestors := λ n, Ok (getAncestors n);
  call_getScope := λ n, Ok (getScope n);
  call_isGlobalIdentifier := λ n scope, Ok (isGlobalIdentifier n scope);
  call_report := λ _, Ok ();
  call_reporter := λ _, Ok ();
|}.

(** Every call returns. *)
Definition returns (calls : Calls Scope) : Prop :=
  (∀ n, ∃ mi, call_analyze calls n = Ok mi)
  ∧ (∀ n, ∃ escape, call_isSSREscape calls n = Ok escape)
  ∧ (∀ n, ∃ ancestors, call_getAncestors calls n = Ok ancestors)
  ∧ (∀ n, ∃ scope, call_getScope calls n = Ok scope)
  ∧ (∀ n scope, ∃ global, call_isGlobalIdentifier calls n scope = Ok global)
  ∧ (∀ r, call_report calls r = Ok ())
  ∧ (∀ n, call_reporter calls n = Ok ()).

(** The host that holds what the calls return. *)
Definition host_of_calls (calls : Calls Scope) : Host := {|
  ast := ast;
  analyze := λ n,
    match call_analyze calls n with
    | Ok mi => mi
    | Throw _ => {| lwcClassDeclaration := None;
                    moduleScopedFunctionsReachableDuringSSR := ∅;
                    methodsReachableDuringSSR := ∅ |}
    end;
  isSSREscape := λ n,
    match call_isSSREscape calls n with Ok b => b | Throw _ => false end;
  Scope := Scope;
  getScope := λ n,
    match call_getScope calls n with Ok scope => scope | Throw _ => getScope n end;
  getAncestors := λ n,
    match call_getAncestors calls n with Ok l => l | Throw _ => [] end;
  isGlobalIdentifier := λ n scope,
    match call_isGlobalIdentifier calls n scope with Ok b => b | Throw _ => false end;
|}.

(** A rule, calls included, whose callbacks raise nothing: one event at a
    time, and along a whole traversal. *)
Definition total_rule_calling {R : Type}
    (step : tracker * list R → event → result (tracker * list R)) : Prop :=
  (∀ s ev,
     estree_links (event_node ev) = true →
     primed s.1 ev →
     ∃ s', step s ev = Ok s'
           ∧ is_Some (moduleInfo s'.1)
           ∧ (s'.2 = s.2 ∨ (s'.1 = s.1 ∧ ∃ r, s'.2 = s.2 ++ [r])))
  ∧ (∀ t pre post,
       field (root t) "type" = VStr "Program" →
       Forall (λ n, estree_links n = true) (nodes t) →
       events t = pre ++ post →
       ∃ s', run step (reachableDuringSSRPartial, []) pre = Ok s').
End CallsVocabulary.

(** ** A sample module

    The tree of the following file, with statement wrappers left out
    (no callback is registered for them):
<<
    if (!import.meta.env.SSR) {                            // 100
      if (typeof window !== 'undefined') {}                // 101
      window.foo;                                          // 103
    }
    function foo() {                                       // 110
      function bar() {}                                    // 112
      process.env.NODE_ENV;                                // 70
      someOther.env.NODE_ENV;                              // 80
      this.template;                                       // 120
    }
    const baz = () => {};                                  // 140
    export default class extends LightningElement {        // 1
      connectedCallback() {                                // 2
        globalThis.document.addEventListener();            // 10
        globalThis.document?.addEventListener();           // 20
        doSomethingWith(window);                           // 30
        (window) => use(window);                           // 35
        this.template;                                     // 40
        document?.addEventListener();                      // 50
        foo[window];                                       // 60
        document.body.addEventListener();                  // 90
        globalThis?.addEventListener();                    // 130
      }
    }
>>
*)

Module Sample.

Definition obj (fields : list (string * value)) : gmap string value :=
  list_to_map fields.

Definition node_ (type : string) (parent : NodeRef) : list (string * value) :=
  [("type", VStr type); ("parent", VRef parent)].

Definition identifier (name : string) (parent : NodeRef) : gmap string value :=
  obj (("name", VStr name) :: node_ "Identifier" parent).

Definition member (object property : NodeRef) (optional : bool) (parent : NodeRef)
  : gmap string value :=
  obj (("object", VRef object) :: ("property", VRef property)
       :: ("optional", VBool optional) :: node_ "MemberExpression" parent).

Definition store : gmap NodeRef (gmap string value) :=
  list_to_map [
    (0, obj [("type", VStr "Program"); ("parent", VNull)]);
    (100, obj (node_ "IfStatement" 0));
    (101, obj (node_ "IfStatement" 100));
    (103, member 104 105 false 100);
    (104, identifier "window" 103);
    (105, identifier "foo" 103);
    (110, obj (("id", VRef 111) :: node_ "FunctionDeclaration" 0));
    (111, identifier "foo" 110);
    (112, obj (("id", VRef 113) :: node_ "FunctionDeclaration" 110));
    (113, identifier "bar" 112);
    (70, member 71 74 false 110);
    (71, member 72 73 false 70);
    (72, identifier "process" 71);
    (73, identifier "env" 71);
    (74, identifier "NODE_ENV" 70);
    (80, member 81 84 false 110);
    (81, member 82 83 false 80);
    (82, identifier "someOther" 81);
    (83, identifier "env" 81);
    (84, identifier "NODE_ENV" 80);
    (120, member 121 122 false 110);
    (121, obj (node_ "ThisExpression" 120));
    (122, identifier "template" 120);
    (140, obj (("id", VRef 141) :: node_ "VariableDeclarator" 0));
    (141, identifier "baz" 140);
    (142, obj (node_ "ArrowFunctionExpression" 140));
    (1, obj (node_ "ClassDeclaration" 0));
    (2, obj (("key", VRef 3) :: node_ "MethodDefinition" 1));
    (3, identifier "connectedCallback" 2);
    (4, obj (node_ "FunctionExpression" 2));
    (10, obj (node_ "CallExpression" 4));
    (11, member 12 15 false 10);
    (12, member 13 14 false 11);
    (13, identifier "globalThis" 12);
    (14, identifier "document" 12);
    (15, identifier "addEventListener" 11);
    (20, obj (node_ "CallExpression" 4));
    (21, member 22 25 true 20);
    (22, member 23 24 false 21);
    (23, identifier "globalThis" 22);
    (24, identifier "document" 22);
    (25, identifier "addEventListener" 21);
    (30, obj (node_ "CallExpression" 4));
    (31, identifier "doSomethingWith" 30);
    (32, identifier "window" 30);
    (35, obj (node_ "ArrowFunctionExpression" 4));
    (36, identifier "window" 35);
    (37, obj (node_ "CallExpression" 35));
    (38, identifier "use" 37);
    (39, identifier "window" 37);
    (40, member 41 42 false 4);
    (41, obj (node_ "ThisExpression" 40));
    (42, identifier "template" 40);
    (50, obj (node_ "CallExpression" 4));
    (51, member 52 53 true 50);
    (52, identifier "document" 51);
    (53, identifier "addEventListener" 51);
    (60, member 61 62 false 4);
    (61, identifier "foo" 60);
    (62, identifier "window" 60);
    (90, obj (node_ "CallExpression" 4));
    (91, member 92 95 false 90);
    (92, member 93 94 false 91);
    (93, identifier "document" 92);
    (94, identifier "body" 92);
    (95, identifier "addEventListener" 91);
    (130, obj (node_ "CallExpression" 4));
    (131, member 132 133 true 130);
    (132, identifier "globalThis" 131);
    (133, identifier "addEventListener" 131)
  ].

Definition leaf (n : NodeRef) : tree := Node n [].

Definition guarded : tree :=
  Node 100 [leaf 101; Node 103 [leaf 104; leaf 105]].

Definition function_foo : tree :=
  Node 110 [
    leaf 111;
    Node 112 [leaf 113];
    Node 70 [Node 71 [leaf 72; leaf 73]; leaf 74];
    Node 80 [Node 81 [leaf 82; leaf 83]; leaf 84];
    Node 120 [leaf 121; leaf 122] ].

Definition method_body : tree :=
  Node 4 [
    Node 10 [Node 11 [Node 12 [leaf 13; leaf 14]; leaf 15]];
    Node 20 [Node 21 [Node 22 [leaf 23; leaf 24]; leaf 25]];
    Node 30 [leaf 31; leaf 32];
    Node 35 [leaf 36; Node 37 [leaf 38; leaf 39]];
    Node 40 [leaf 41; leaf 42];
    Node 50 [Node 51 [leaf 52; leaf 53]];
    Node 60 [leaf 61; leaf 62];
    Node 90 [Node 91 [Node 92 [leaf 93; leaf 94]; leaf 95]];
    Node 130 [Node 131 [leaf 132; leaf 133]] ].

Definition program : tree :=
  Node 0 [ guarded; function_foo; Node 140 [leaf 141; leaf 142];
           Node 1 [Node 2 [leaf 3; method_body]] ].

(** [context.getAncestors()]: the chain of [parent] links, outermost first. *)
Fixpoint ancestors (fuel : nat) (n : NodeRef) : list NodeRef :=
  match fuel with
  | 0 => []
  | S fuel' =>
      match store !! n ≫= (.!! "parent") with
      | Some (VRef p) => ancestors fuel' p ++ [p]
      | _ => []
      end
  end.

(** The identifiers bound by the parameter of the arrow function. *)
Definition shadowed : list NodeRef := [36; 39].

#[export] Instance host : Host := {|
  ast := store;
  analyze := fun _ =>
    {| lwcClassDeclaration := Some 1;
       moduleScopedFunctionsReachableDuringSSR := {[ "foo"; "bar"; "baz" ]};
       methodsReachableDuringSSR := {[ "connectedCallback" ]} |};
  isSSREscape := fun n => bool_decide (n ∈ [100; 101]);
  Scope := unit;
  getScope := fun _ => tt;
  getAncestors := ancestors 16;
  isGlobalIdentifier := fun n _ => negb (bool_decide (n ∈ shadowed));
|}.

(** The tracker right after the [Program] callback, while the walk is
    inside the body of [connectedCallback], and while it is inside the
    body of [foo]. *)
Definition after_program : tracker :=
  set_moduleInfo (analyze 0) reachableDuringSSRPartial.

Definition inside_method : tracker := {|
  moduleInfo := Some (analyze 0);
  insideLWC := true;
  reachableFunctionThatWeAreIn := None;
  reachableMethodThatWeAreIn := Some 2;
  skippedBlockThatWeAreIn := None;
|}.

Definition inside_function : tracker := {|
  moduleInfo := Some (analyze 0);
  insideLWC := false;
  reachableFunctionThatWeAreIn := Some 110;
  reachableMethodThatWeAreIn := None;
  skippedBlockThatWeAreIn := None;
|}.

Definition forbiddenGlobalNames : gset string := {[ "window"; "document" ]}.
Definition messageIds : list string := ["prohibitedBrowserAPIUsage"; "prohibitedBrowserAPIUsageGlobal"].
Definition forbiddenPropertyNames : list string := ["template"; "dispatchEvent"].

(** A report of the first message kind. *)
Definition kind_A (node : NodeRef) (name : string) : report :=
  {| messageId := VStr "prohibitedBrowserAPIUsage";
     reported := node;
     data_identifier := VStr name;
     data_property := None |}.

End Sample.

(** ** A tree no parser produces

    A function expression under a variable declarator that has no [id]. *)

Module Malformed.

Definition store : gmap NodeRef (gmap string value) :=
  list_to_map [
    (0, Sample.obj [("type", VStr "Program"); ("parent", VNull)]);
    (1, Sample.obj (Sample.node_ "VariableDeclarator" 0));
    (2, Sample.obj (Sample.node_ "FunctionExpression" 1))
  ].

Definition program : tree := Node 0 [Node 1 [Node 2 []]].

Definition host : Host := {|
  ast := store;
  analyze := fun _ =>
    {| lwcClassDeclaration := None;
       moduleScopedFunctionsReachableDuringSSR := ∅;
       methodsReachableDuringSSR := ∅ |};
  isSSREscape := fun _ => false;
  Scope := unit;
  getScope := fun _ => tt;
  getAncestors := fun _ => [];
  isGlobalIdentifier := fun _ _ => true;
|}.

End Malformed.

(** ** A file with one statement at module scope
<<
    globalThis.addEventListener();                         // 1
>>
*)

Module TopLevel.

Definition store : gmap NodeRef (gmap string value) :=
  list_to_map [
    (0, Sample.obj [("type", VStr "Program"); ("parent", VNull)]);
    (1, Sample.obj (Sample.node_ "CallExpression" 0));
    (2, Sample.member 3 4 false 1);
    (3, Sample.identifier "globalThis" 2);
    (4, Sample.identifier "addEventListener" 2)
  ].

Definition host : Host := {|
  ast := store;
  analyze := fun _ =>
    {| lwcClassDeclaration := None;
       moduleScopedFunctionsReachableDuringSSR := ∅;
       methodsReachableDuringSSR := ∅ |};
  isSSREscape := fun _ => false;
  Scope := unit;
  getScope := fun _ => tt;
  getAncestors := fun n => if Nat.eqb n 2 then [0; 1] else [];
  isGlobalIdentifier := fun _ _ => true;
|}.

End TopLevel.

(** ** The sample module under an analyzer that throws

    The calls of the sample's host, but for [analyze], which throws. *)

Module Throwing.

Definition calls : Calls unit := {|
  call_analyze := λ _, Throw TypeError;
  call_isSSREscape := λ n, Ok (isSSREscape (Host := Sample.host) n);
  call_getAncestors := λ n, Ok (getAncestors (Host := Sample.host) n);
  call_getScope := λ n, Ok (getScope (Host := Sample.host) n);
  call_isGlobalIdentifier := λ n scope,
    Ok (isGlobalIdentifier (Host := Sample.host) n scope);
  call_report := λ _, Ok ();
  call_reporter := λ _, Ok ();
|}.

End Throwing.

(** ** A function the analyzer does not name

    The tree of the following file, with statement wrappers left out:
<<
    function helper() {                                    // 1
      window.foo;                                          // 3
    }
>>
*)

Module Unnamed.

Definition store : gmap NodeRef (gmap string value) :=
  list_to_map [
    (0, Sample.obj [("type", VStr "Program"); ("parent", VNull)]);
    (1, Sample.obj (("id", VRef 2) :: Sample.node_ "FunctionDeclaration" 0));
    (2, Sample.identifier "helper" 1);
    (3, Sample.member 4 5 false 1);
    (4, Sample.identifier "window" 3);
    (5, Sample.identifier "foo" 3)
  ].

Definition program : tree :=
  Node 0 [Node 1 [Node 2 []; Node 3 [Node 4 []; Node 5 []]]].

Definition host : Host := {|
  ast := store;
  analyze := fun _ =>
    {| lwcClassDeclaration := None;
       moduleScopedFunctionsReachableDuringSSR := ∅;
       methodsReachableDuringSSR := ∅ |};
  isSSREscape := fun _ => false;
  Scope := unit;
  getScope := fun _ => tt;
  getAncestors := fun n =>
    match n with
    | 0 => []
    | 1 => [0]
    | 2 | 3 => [0; 1]
    | _ => [0; 1; 3]
    end;
  isGlobalIdentifier := fun _ _ => true;
|}.

End Unnamed.

(** * Properties *)

Section Facts.
Context `{Host}.

Lemma strict_eq_true (a b : value) : (a === b) = true ↔ a = b.
Proof. unfold strict_eq. apply bool_decide_eq_true. Qed.

Lemma strict_eq_false (a b : value) : (a === b) = false ↔ a ≠ b.
Proof. unfold strict_eq. apply bool_decide_eq_false. Qed.

Lemma strict_eq_refl (a : value) : (a === a) = true.
Proof. by apply strict_eq_true. Qed.

Lemma strict_eq_str (a b : string) : (VStr a === VStr b) = String.eqb a b.
Proof.
  destruct (String.eqb_spec a b) as [->|Hne].
  - apply strict_eq_refl.
  - apply strict_eq_false. congruence.
Qed.

Lemma set_has_str (s : gset string) (x : string) :
  set_has s (VStr x) = bool_decide (x ∈ s).
Proof. reflexivity. Qed.

Lemma get_ref (r : NodeRef) (k : string) : get (VRef r) k = Ok (field r k).
Proof. reflexivity. Qed.

Lemma bind_Ok {A B : Type} (a : A) (f : A → result B) : (Ok a ≫= f) = f a.
Proof. reflexivity. Qed.

Lemma and_then_true (k : result bool) : Ok true &&& k = k.
Proof. reflexivity. Qed.

Lemma and_then_false (k : result bool) : Ok false &&& k = Ok false.
Proof. reflexivity. Qed.

Lemma or_else_true (k : result bool) : Ok true ||| k = Ok true.
Proof. reflexivity. Qed.

Lemma or_else_false (k : result bool) : Ok false ||| k = k.
Proof. reflexivity. Qed.

Lemma notReachable_false (st : tracker) (node : NodeRef) :
  isInsideReachableMethod st || isInsideReachableFunction st || inModuleScope node = true →
  isInsideSkippedBlock st = false →
  notReachable st node = false.
Proof.
  unfold notReachable. intros Hr ->.
  destruct (isInsideReachableMethod st), (isInsideReachableFunction st),
    (inModuleScope node); done.
Qed.

Lemma notReachable_skipped (st : tracker) (node : NodeRef) :
  isInsideSkippedBlock st = true → notReachable st node = true.
Proof. unfold notReachable. intros ->. apply orb_true_r. Qed.

End Facts.

(** Evaluate a callback whose field reads are fixed by hypotheses. *)
Ltac js_simpl :=
  repeat first
    [ progress unfold get2, get3
    | rewrite get_ref
    | rewrite bind_Ok
    | rewrite strict_eq_refl
    | rewrite strict_eq_str
    | rewrite and_then_true
    | rewrite and_then_false
    | rewrite or_else_true
    | rewrite or_else_false
    | match goal with
      | E : field ?r ?k = _ |- context [field ?r ?k] => rewrite E
      end
    | progress cbn [String.eqb Ascii.eqb Bool.eqb negb andb orb] ].

Ltac js_simpl_in H :=
  repeat first
    [ progress unfold get2, get3 in H
    | rewrite get_ref in H
    | rewrite bind_Ok in H
    | rewrite strict_eq_refl in H
    | rewrite strict_eq_str in H
    | rewrite and_then_true in H
    | rewrite and_then_false in H
    | rewrite or_else_true in H
    | rewrite or_else_false in H
    | match type of H with
      | context [field ?r ?k] =>
          match goal with E : field r k = _ |- _ => rewrite E in H end
      end
    | progress cbn [String.eqb Ascii.eqb Bool.eqb negb andb orb] in H ].

(** Case analysis on the first undecided test of a condition chain. *)
Ltac js_case :=
  match goal with
  | |- context [Ok (negb (?a === ?b)) &&& _] => destruct (a === b) eqn:?
  | |- context [Ok (?a === ?b) &&& _] => destruct (a === b) eqn:?
  | |- context [Ok (?a === ?b) ||| _] => destruct (a === b) eqn:?
  | |- context [Ok (set_has ?s ?v) &&& _] => destruct (set_has s v) eqn:?
  | |- context [Ok (set_has ?s ?v) ||| _] => destruct (set_has s v) eqn:?
  | |- context [Ok (includes ?s ?v) &&& _] => destruct (includes s v) eqn:?
  | |- context [Ok (truthy ?v) &&& _] => destruct (truthy v) eqn:?
  | |- context [Ok (?a === ?b) ≫= _] => destruct (a === b) eqn:?
  | |- context [Ok (negb (?a === ?b)) ≫= _] => destruct (a === b) eqn:?
  | |- context [Ok (set_has ?s ?v) ≫= _] => destruct (set_has s v) eqn:?
  | |- context [Ok (includes ?s ?v) ≫= _] => destruct (includes s v) eqn:?
  end.

Section Rules.
Context `{Host}.
Variable forbiddenGlobalNames : gset string.
Variable messageIds : list string.

(** C1. A member access [globalThis.X] whose parent is a member access,
    with [X] an identifier named in the forbidden set and [globalThis]
    resolving to the global binding, visited inside a reachable function
    or method or at module scope and outside a skipped block, gets exactly
    one report of the second message kind, carrying [X] and the name of the
    parent's property, when the parent access is not optional; when the
    parent access is optional ([globalThis.X?.Y]) nothing is reported. *)
Theorem globalThis_chain_reported_once
    (st : tracker) (node parent object property next : NodeRef) (X : string) :
  field node "parent" = VRef parent →
  field parent "type" = VStr "MemberExpression" →
  field parent "property" = VRef next →
  field node "object" = VRef object →
  field object "type" = VStr "Identifier" →
  field object "name" = VStr "globalThis" →
  field node "property" = VRef property →
  field property "type" = VStr "Identifier" →
  field property "name" = VStr X →
  X ∈ forbiddenGlobalNames →
  isGlobalIdentifier object (getScope node) = true →
  isInsideReachableMethod st || isInsideReachableFunction st || inModuleScope node = true →
  isInsideSkippedBlock st = false →
  (field parent "optional" ≠ VBool true →
   noReferenceDuringSSR.MemberExpression forbiddenGlobalNames messageIds st node
   = Ok [ {| messageId := at_ messageIds 1;
             reported := node;
             data_identifier := VStr X;
             data_property := Some (field next "name") |} ])
  ∧ (field parent "optional" = VBool true →
     noReferenceDuringSSR.MemberExpression forbiddenGlobalNames messageIds st node
     = Ok []).
Proof.
  intros Hp Hpt Hpp Ho Hot Hon Hpr Hprt Hprn HX Hg Hreach Hskip.
  pose proof (notReachable_false st node Hreach Hskip) as Hgate.
  unfold noReferenceDuringSSR.MemberExpression. rewrite Hgate.
  split; intros Hopt.
  - js_simpl. rewrite set_has_str, (bool_decide_eq_true_2 _ HX).
    apply strict_eq_false in Hopt. js_simpl. rewrite Hopt. js_simpl.
    rewrite Hg. js_simpl. reflexivity.
  - js_simpl. rewrite set_has_str, (bool_decide_eq_true_2 _ HX).
    js_simpl. reflexivity.
Qed.

(** C2 (as amended). A null-safe member access is exempt only when its
    object is not a forbidden name and its parent is not a non-optional
    member access, as in [globalThis?.addEventListener()]: then nothing
    is reported, wherever the access stands.  A null-safe access on a
    forbidden global itself, as in [document?.addEventListener()], is
    reported once with the first message kind. *)
Theorem optional_access_exemption
    (st : tracker) (node parent object property : NodeRef) :
  field node "optional" = VBool true →
  field node "parent" = VRef parent →
  field node "object" = VRef object →
  field node "property" = VRef property →
  (field parent "type" = VStr "MemberExpression" →
   field parent "optional" = VBool true) →
  ((∀ x, field object "name" = VStr x → x ∉ forbiddenGlobalNames) →
   noReferenceDuringSSR.MemberExpression forbiddenGlobalNames messageIds st node
   = Ok [])
  ∧ (∀ x, field object "type" = VStr "Identifier" →
          field object "name" = VStr x →
          x ∈ forbiddenGlobalNames →
          x ≠ "globalThis" →
          field parent "type" ≠ VStr "MemberExpression" →
          isGlobalIdentifier object (getScope node) = true →
          isInsideReachableMethod st || isInsideReachableFunction st
            || inModuleScope node = true →
          isInsideSkippedBlock st = false →
          noReferenceDuringSSR.MemberExpression forbiddenGlobalNames messageIds st node
          = Ok [ {| messageId := at_ messageIds 0;
                    reported := node;
                    data_identifier := VStr x;
                    data_property := None |} ]).
Proof.
  intros Hopt Hp Ho Hpr Hpo. split.
  - intros Hname.
    assert (set_has forbiddenGlobalNames (field object "name") = false) as Hhas.
    { destruct (field object "name") as [| | | |x|] eqn:E; try reflexivity.
      rewrite set_has_str. apply bool_decide_eq_false_2. by apply Hname. }
    unfold noReferenceDuringSSR.MemberExpression.
    destruct (notReachable st node); [reflexivity|].
    js_simpl. destruct (field parent "type" === VStr "MemberExpression") eqn:Hpt.
    + apply strict_eq_true in Hpt. specialize (Hpo Hpt). js_simpl.
      repeat (js_case; js_simpl; try reflexivity).
    + js_simpl. js_case; js_simpl; try reflexivity.
      rewrite Hhas. js_simpl. js_case; js_simpl; reflexivity.
  - intros x Hot Hon Hx Hng Hpt Hg Hreach Hskip.
    unfold noReferenceDuringSSR.MemberExpression.
    rewrite (notReachable_false st node Hreach Hskip).
    apply strict_eq_false in Hpt.
    assert (String.eqb x "globalThis" = false) as Hneq by by apply String.eqb_neq.
    js_simpl. rewrite Hpt. js_simpl.
    rewrite set_has_str, (bool_decide_eq_true_2 _ Hx). js_simpl.
    rewrite Hg. js_simpl. rewrite Hneq. js_simpl. reflexivity.
Qed.

(** C3 (as amended). An identifier whose parent is not a member access
    (so neither the object nor the property of one), whose name is in the
    forbidden set, visited inside a reachable function or method or at
    module scope and outside a skipped block, gets exactly one report of
    the first message kind carrying its name when it resolves to the
    global binding, and none when it resolves to a local declaration. *)
Theorem bare_identifier_reported_once
    (st : tracker) (node parent : NodeRef) (X : string) :
  field node "parent" = VRef parent →
  field parent "type" ≠ VStr "MemberExpression" →
  field node "name" = VStr X →
  X ∈ forbiddenGlobalNames →
  isInsideReachableMethod st || isInsideReachableFunction st || inModuleScope node = true →
  isInsideSkippedBlock st = false →
  (isGlobalIdentifier node (getScope node) = true →
   noReferenceDuringSSR.Identifier forbiddenGlobalNames messageIds st node
   = Ok [ {| messageId := at_ messageIds 0;
             reported := node;
             data_identifier := VStr X;
             data_property := None |} ])
  ∧ (isGlobalIdentifier node (getScope node) = false →
     noReferenceDuringSSR.Identifier forbiddenGlobalNames messageIds st node
     = Ok []).
Proof.
  intros Hp Hpt Hn HX Hreach Hskip.
  unfold noReferenceDuringSSR.Identifier.
  rewrite (notReachable_false st node Hreach Hskip).
  apply strict_eq_false in Hpt.
  split; intros Hg; js_simpl; rewrite Hpt; js_simpl;
    rewrite set_has_str, (bool_decide_eq_true_2 _ HX); js_simpl;
    rewrite Hg; reflexivity.
Qed.

(** C9. In a chain such as [document.body.addEventListener], rule
    [noReferenceDuringSSR] reports nothing, whatever the tracker holds:
    not for the inner access, whose object is an identifier other than
    [globalThis] and whose parent is a member access; not for the outer
    access, whose object is a member access and no identifier; and not
    for the identifier itself, whose parent is a member access. *)
Theorem chained_access_on_global_not_reported
    (st : tracker) (outer inner object grandparent : NodeRef) (x : string) :
  field inner "parent" = VRef outer →
  field outer "type" = VStr "MemberExpression" →
  field outer "object" = VRef inner →
  field inner "type" = VStr "MemberExpression" →
  field outer "parent" = VRef grandparent →
  field inner "object" = VRef object →
  field object "type" = VStr "Identifier" →
  field object "name" = VStr x →
  x ≠ "globalThis" →
  field object "parent" = VRef inner →
  noReferenceDuringSSR.MemberExpression forbiddenGlobalNames messageIds st inner = Ok []
  ∧ noReferenceDuringSSR.MemberExpression forbiddenGlobalNames messageIds st outer = Ok []
  ∧ noReferenceDuringSSR.Identifier forbiddenGlobalNames messageIds st object = Ok [].
Proof.
  intros Hip Hot Hoo Hit Hop Hio Hbt Hbn Hx Hbp.
  assert (String.eqb x "globalThis" = false) as Hneq by by apply String.eqb_neq.
  repeat split.
  - unfold noReferenceDuringSSR.MemberExpression.
    destruct (notReachable st inner); [reflexivity|].
    js_simpl. rewrite Hneq. js_simpl. reflexivity.
  - unfold noReferenceDuringSSR.MemberExpression.
    destruct (notReachable st outer); [reflexivity|].
    js_simpl. repeat (js_case; js_simpl; try reflexivity).
  - unfold noReferenceDuringSSR.Identifier.
    destruct (notReachable st object); [reflexivity|].
    js_simpl. reflexivity.
Qed.

End Rules.

Section Tracker.
Context `{Host}.

Lemma set_has_identifier_name (s : gset string) (r : NodeRef) :
  field r "type" = VStr "Identifier" →
  set_has s (field r "name")
  = match identifier_name (VRef r) with
    | Some x => bool_decide (x ∈ s)
    | None => false
    end.
Proof.
  intros Ht. unfold identifier_name. rewrite Ht, strict_eq_refl.
  by destruct (field r "name").
Qed.

Lemma identifier_name_other (v : value) :
  (∀ r, v = VRef r → field r "type" ≠ VStr "Identifier") →
  identifier_name v = None.
Proof.
  intros Hv. destruct v as [| | | | |r]; try reflexivity.
  unfold identifier_name.
  destruct (field r "type" === VStr "Identifier") eqn:E; [|reflexivity].
  apply strict_eq_true in E. by destruct (Hv r eq_refl).
Qed.

Lemma FunctionDeclaration_spec (st : tracker) (node : NodeRef) (mi : ModuleInfo) :
  moduleInfo st = Some mi →
  withinLWCVisitors.FunctionDeclaration st node
  = Ok (match reachableFunctionThatWeAreIn st with
        | Some _ => st
        | None =>
            if reachable_name mi (identifier_name (field node "id"))
            then set_reachableFunction (Some node) st
            else st
        end).
Proof.
  intros Hmi. unfold withinLWCVisitors.FunctionDeclaration, the_moduleInfo.
  rewrite Hmi.
  destruct (reachableFunctionThatWeAreIn st) as [n|]; [reflexivity|].
  rewrite bool_decide_eq_false_2 by (by intros [? ?]).
  js_simpl.
  destruct (field node "id") as [| |b|z|s|r] eqn:Hid; try reflexivity.
  - destruct b; reflexivity.
  - cbn [truthy]. destruct (negb (z =? 0)%Z); reflexivity.
  - cbn [truthy]. destruct (negb (String.eqb s EmptyString)); reflexivity.
  - cbn [truthy]. js_simpl. unfold reachable_name.
    destruct (field r "type" === VStr "Identifier") eqn:Ht.
    + apply strict_eq_true in Ht. js_simpl.
      by rewrite (set_has_identifier_name _ r Ht).
    + js_simpl. rewrite identifier_name_other; [reflexivity|].
      intros r' [= <-]. by apply strict_eq_false.
Qed.

Lemma bound_function_spec (st : tracker) (node parent : NodeRef) (mi : ModuleInfo) :
  moduleInfo st = Some mi →
  field node "parent" = VRef parent →
  (field parent "type" = VStr "VariableDeclarator" →
   ∃ id, field parent "id" = VRef id) →
  withinLWCVisitors.FunctionExpression st node
  = Ok (match reachableFunctionThatWeAreIn st with
        | Some _ => st
        | None =>
            if (field parent "type" === VStr "VariableDeclarator")
               && reachable_name mi (identifier_name (field parent "id"))
            then set_reachableFunction (Some node) st
            else st
        end).
Proof.
  intros Hmi Hp Hid. unfold withinLWCVisitors.FunctionExpression, the_moduleInfo.
  rewrite Hmi.
  destruct (reachableFunctionThatWeAreIn st) as [n|]; [reflexivity|].
  rewrite bool_decide_eq_false_2 by (by intros [? ?]).
  js_simpl.
  destruct (field parent "type" === VStr "VariableDeclarator") eqn:Ht;
    [|reflexivity].
  apply strict_eq_true in Ht. destruct (Hid Ht) as [id Hi].
  js_simpl. unfold reachable_name.
  destruct (field id "type" === VStr "Identifier") eqn:Hit.
  - apply strict_eq_true in Hit. js_simpl.
    by rewrite (set_has_identifier_name _ id Hit).
  - js_simpl. rewrite identifier_name_other; [reflexivity|].
    intros r' [= <-]. by apply strict_eq_false.
Qed.

Lemma function_exit_spec (st : tracker) (node : NodeRef) :
  withinLWCVisitors.FunctionDeclaration_exit st node
  = Ok (if bool_decide (reachableFunctionThatWeAreIn st = Some node)
        then set_reachableFunction None st else st).
Proof.
  unfold withinLWCVisitors.FunctionDeclaration_exit.
  do 2 case_bool_decide; congruence.
Qed.

(** C7 (as amended). With the module information in place, entering a
    function declaration, or a function or arrow expression whose parent
    is a variable declarator, records the node in the reachable-function
    slot exactly when the slot is empty and the declared (respectively
    bound) identifier name is in [moduleScopedFunctionsReachableDuringSSR];
    otherwise the tracker is left as it is.  Leaving a function clears the
    slot exactly when the node left is the recorded one.  In particular,
    a matching function entered while another one is recorded does not
    replace it: the slot keeps the function that was entered first. *)
Theorem reachable_function_slot
    (st : tracker) (node parent : NodeRef) (mi : ModuleInfo) :
  moduleInfo st = Some mi →
  field node "parent" = VRef parent →
  (field parent "type" = VStr "VariableDeclarator" →
   ∃ id, field parent "id" = VRef id) →
  let declared := reachable_name mi (identifier_name (field node "id")) in
  let bound :=
    (field parent "type" === VStr "VariableDeclarator")
    && reachable_name mi (identifier_name (field parent "id")) in
  let record (matching : bool) :=
    Ok (if bool_decide (reachableFunctionThatWeAreIn st = None) && matching
        then set_reachableFunction (Some node) st else st) in
  let clear :=
    Ok (if bool_decide (reachableFunctionThatWeAreIn st = Some node)
        then set_reachableFunction None st else st) in
  (withinLWCVisitors.FunctionDeclaration st node = record declared
   ∧ withinLWCVisitors.FunctionExpression st node = record bound
   ∧ withinLWCVisitors.ArrowFunctionExpression st node = record bound)
  ∧ (withinLWCVisitors.FunctionDeclaration_exit st node = clear
     ∧ withinLWCVisitors.FunctionExpression_exit st node = clear
     ∧ withinLWCVisitors.ArrowFunctionExpression_exit st node = clear)
  ∧ (∀ first, reachableFunctionThatWeAreIn st = Some first →
       withinLWCVisitors.FunctionDeclaration st node = Ok st
       ∧ withinLWCVisitors.FunctionExpression st node = Ok st
       ∧ withinLWCVisitors.ArrowFunctionExpression st node = Ok st).
Proof.
  intros Hmi Hp Hid declared bound record clear.
  pose proof (FunctionDeclaration_spec st node mi Hmi) as Hd.
  pose proof (bound_function_spec st node parent mi Hmi Hp Hid) as Hb.
  assert (withinLWCVisitors.ArrowFunctionExpression st node
          = withinLWCVisitors.FunctionExpression st node) as Ha by reflexivity.
  split; [|split].
  - subst record declared bound. rewrite Ha, Hd, Hb.
    destruct (reachableFunctionThatWeAreIn st); done.
  - subst clear. repeat split; apply function_exit_spec.
  - intros first Hfirst. rewrite Ha, Hd, Hb, Hfirst. done.
Qed.

End Tracker.

(** Follow the dispatch on the node type, one registered key at a time. *)
Ltac dispatch ty :=
  repeat (match goal with
          | |- context [String.eqb ty ?k] =>
              let E := fresh "E" in
              destruct (String.eqb ty k) eqn:E;
              [apply String.eqb_eq in E | apply String.eqb_neq in E]
          end; cbv iota).

Section Traversal.
Context `{Host}.

Lemma tree_ind_forest (P : tree → Prop) :
  (∀ n cs, Forall P cs → P (Node n cs)) → ∀ t, P t.
Proof.
  intros Hnode. fix IH 1. intros [n cs]. apply Hnode.
  induction cs as [|c cs IHcs]; constructor; [apply IH | exact IHcs].
Qed.

Lemma Enter_events_nodes (t : tree) (m : NodeRef) :
  Enter m ∈ events t → m ∈ nodes t.
Proof.
  induction t as [n cs IH] using tree_ind_forest. cbn [events nodes].
  rewrite elem_of_cons, elem_of_app, list_elem_of_singleton.
  intros [[= ->]|[Hin|[=]]]; [by left|]. right.
  induction IH as [|c cs Hc _ IHcs]; cbn [flat_map] in *; [by inversion Hin|].
  apply elem_of_app in Hin as [Hin|Hin]; apply elem_of_app; auto.
Qed.

Lemma Exit_events_nodes (t : tree) (m : NodeRef) :
  Exit m ∈ events t → m ∈ nodes t.
Proof.
  induction t as [n cs IH] using tree_ind_forest. cbn [events nodes].
  rewrite elem_of_cons, elem_of_app, list_elem_of_singleton.
  intros [[=]|[Hin|[= ->]]]; [|by left]. right.
  induction IH as [|c cs Hc _ IHcs]; cbn [flat_map] in *; [by inversion Hin|].
  apply elem_of_app in Hin as [Hin|Hin]; apply elem_of_app; auto.
Qed.

Lemma ordered_app (a b : list event) :
  ordered a → ordered b →
  (∀ m, Enter m ∈ b → Exit m ∉ a) →
  ordered (a ++ b).
Proof.
  intros Ha Hb Hab i j m Hi Hj.
  apply lookup_app_Some in Hi as [Hi|[Hle Hi]];
    apply lookup_app_Some in Hj as [Hj|[Hle' Hj]].
  - eauto.
  - apply lookup_lt_Some in Hi. lia.
  - destruct (Hab m); eapply list_elem_of_lookup_2; eauto.
  - pose proof (Hb _ _ _ Hi Hj). lia.
Qed.

Lemma ordered_events (t : tree) : NoDup (nodes t) → ordered (events t).
Proof.
  induction t as [n cs IH] using tree_ind_forest. cbn [events nodes].
  intros [Hn Hcs]%NoDup_cons.
  assert (ordered (flat_map events cs)) as Hforest.
  { clear Hn. induction IH as [|c cs Hc _ IHcs]; cbn [flat_map] in *.
    - intros i j m Hi. by rewrite lookup_nil in Hi.
    - apply NoDup_app in Hcs as (Hc' & Hdisj & Hcs').
      apply ordered_app; [auto|auto|].
      intros m Hin Hout. apply Exit_events_nodes in Hout.
      apply (Hdisj m Hout). clear -Hin.
      induction cs as [|c' cs IHcs]; cbn [flat_map] in *; [by inversion Hin|].
      apply elem_of_app in Hin as [Hin|Hin]; apply elem_of_app;
        [left; by apply Enter_events_nodes | right; auto]. }
  intros [|i] [|j] m Hi Hj; cbn in Hi, Hj; try lia; try discriminate.
  apply lookup_app_Some in Hi as [Hi|[_ Hi]].
  - apply lookup_app_Some in Hj as [Hj|[Hle _]].
    + pose proof (Hforest _ _ _ Hi Hj). lia.
    + apply lookup_lt_Some in Hi. lia.
  - apply list_lookup_singleton_Some in Hi as [_ [=]].
Qed.

Lemma bind_choice {A : Type} (c : result bool) (a b r : A) :
  (x ← c; Ok (if x : bool then a else b)) = Ok r → r = a ∨ r = b.
Proof. destruct c as [[]|]; cbn; intros [= <-]; auto. Qed.

(** What an entry callback of the tracker can do to the three slots. *)
Lemma tracker_enter_slots (ty : string) (st st' : tracker) (node : NodeRef) :
  tracker_enter ty st node = Ok st' →
  (reachableFunctionThatWeAreIn st' = reachableFunctionThatWeAreIn st
   ∨ (reachableFunctionThatWeAreIn st' = Some node ∧ function_type ty))
  ∧ (reachableMethodThatWeAreIn st' = reachableMethodThatWeAreIn st
     ∨ (reachableMethodThatWeAreIn st' = Some node ∧ ty = "MethodDefinition"))
  ∧ (skippedBlockThatWeAreIn st' = skippedBlockThatWeAreIn st
     ∨ (skippedBlockThatWeAreIn st' = Some node ∧ ty = "IfStatement")).
Proof.
  unfold tracker_enter, function_type. dispatch ty.
  - unfold withinLWCVisitors.Program. intros [= <-]. cbn. auto.
  - unfold withinLWCVisitors.ClassDeclaration.
    destruct (the_moduleInfo st); [|discriminate]. cbn.
    intros [= <-]. case_bool_decide; cbn; auto.
  - intros [-> | ->]%bind_choice; cbn; auto 6.
  - intros [-> | ->]%bind_choice; cbn; auto 6.
  - intros [-> | ->]%bind_choice; cbn; auto 6.
  - intros [-> | ->]%bind_choice; cbn; auto 6.
  - unfold withinLWCVisitors.IfStatement. intros [= <-].
    destruct (isSSREscape node); cbn; auto 6.
  - intros [= <-]. auto.
Qed.

(** What an exit callback of the tracker can do to the three slots. *)
Lemma tracker_exit_slots (ty : string) (st st' : tracker) (node : NodeRef) :
  tracker_exit ty st node = Ok st' →
  (reachableFunctionThatWeAreIn st' = None
   ∨ (reachableFunctionThatWeAreIn st' = reachableFunctionThatWeAreIn st
      ∧ (function_type ty → reachableFunctionThatWeAreIn st ≠ Some node)))
  ∧ (reachableMethodThatWeAreIn st' = None
     ∨ (reachableMethodThatWeAreIn st' = reachableMethodThatWeAreIn st
        ∧ (ty = "MethodDefinition" → reachableMethodThatWeAreIn st ≠ Some node)))
  ∧ (skippedBlockThatWeAreIn st' = None
     ∨ (skippedBlockThatWeAreIn st' = skippedBlockThatWeAreIn st
        ∧ (ty = "IfStatement" → skippedBlockThatWeAreIn st ≠ Some node))).
Proof.
  unfold tracker_exit, function_type. dispatch ty.
  - unfold withinLWCVisitors.ClassDeclaration_exit.
    destruct (the_moduleInfo st); [|discriminate]. cbn.
    intros [= <-]. case_bool_decide; cbn; intuition congruence.
  - unfold withinLWCVisitors.FunctionDeclaration_exit. intros [= <-].
    case_bool_decide; cbn; intuition congruence.
  - unfold withinLWCVisitors.FunctionExpression_exit. intros [= <-].
    case_bool_decide; cbn; intuition congruence.
  - unfold withinLWCVisitors.ArrowFunctionExpression_exit. intros [= <-].
    case_bool_decide; cbn; intuition congruence.
  - unfold withinLWCVisitors.MethodDefinition_exit. intros [= <-].
    cbn. intuition congruence.
  - unfold withinLWCVisitors.IfStatement_exit. intros [= <-].
    case_bool_decide; cbn; intuition congruence.
  - intros [= <-]. intuition congruence.
Qed.

Lemma holds_enter pre kind slot slot' m :
  holds pre kind slot →
  Exit m ∉ pre →
  slot' = slot ∨ (slot' = Some m ∧ ∃ ty, field m "type" = VStr ty ∧ kind ty) →
  holds (pre ++ [Enter m]) kind slot'.
Proof.
  intros Hold Hfresh [->|[-> Hk]] n Hn.
  - destruct (Hold n Hn) as (Hen & Hex & Hty).
    split; [apply elem_of_app; auto|]. split; [|done].
    intros [?|[=]%list_elem_of_singleton]%elem_of_app. done.
  - injection Hn as <-. split; [apply elem_of_app; right; by left|].
    split; [|done].
    intros [?|[=]%list_elem_of_singleton]%elem_of_app. done.
Qed.

Lemma holds_exit pre kind slot slot' m :
  holds pre kind slot →
  slot' = None
  ∨ (slot' = slot ∧ ∀ ty, field m "type" = VStr ty → kind ty → slot ≠ Some m) →
  holds (pre ++ [Exit m]) kind slot'.
Proof.
  intros Hold [->|[-> Hk]] n Hn; [done|].
  destruct (Hold n Hn) as (Hen & Hex & ty & Hty & Hkind).
  split; [apply elem_of_app; auto|]. split; [|eauto].
  intros [?|[= ->]%list_elem_of_singleton]%elem_of_app; [done|].
  by apply (Hk ty Hty Hkind).
Qed.

Lemma tracker_step_enter (st st' : tracker) (m : NodeRef) :
  tracker_step st (Enter m) = Ok st' →
  let entered (kind : string → Prop) (slot : tracker → option NodeRef) :=
    slot st' = slot st
    ∨ (slot st' = Some m ∧ ∃ ty, field m "type" = VStr ty ∧ kind ty) in
  entered function_type reachableFunctionThatWeAreIn
  ∧ entered (λ ty, ty = "MethodDefinition") reachableMethodThatWeAreIn
  ∧ entered (λ ty, ty = "IfStatement") skippedBlockThatWeAreIn.
Proof.
  intros Hstep. cbv zeta beta. cbn [tracker_step] in Hstep.
  destruct (field m "type") as [| | | |ty|]; try (simplify_eq; by auto).
  apply tracker_enter_slots in Hstep as (HF & HM & HS).
  split; [|split].
  - destruct HF as [?|[? ?]]; eauto.
  - destruct HM as [?|[? ?]]; eauto.
  - destruct HS as [?|[? ?]]; eauto.
Qed.

Lemma tracker_step_exit (st st' : tracker) (m : NodeRef) :
  tracker_step st (Exit m) = Ok st' →
  let left (kind : string → Prop) (slot : tracker → option NodeRef) :=
    slot st' = None
    ∨ (slot st' = slot st
       ∧ ∀ ty, field m "type" = VStr ty → kind ty → slot st ≠ Some m) in
  left function_type reachableFunctionThatWeAreIn
  ∧ left (λ ty, ty = "MethodDefinition") reachableMethodThatWeAreIn
  ∧ left (λ ty, ty = "IfStatement") skippedBlockThatWeAreIn.
Proof.
  intros Hstep. cbv zeta beta. cbn [tracker_step] in Hstep.
  destruct (field m "type") as [| | | |ty|];
    try (simplify_eq; (split; [|split]); right; by split).
  apply tracker_exit_slots in Hstep as (HF & HM & HS).
  split; [|split].
  - destruct HF as [?|[? ?]]; [auto|]. right. split; [done|].
    intros ty' [= <-]. done.
  - destruct HM as [?|[? ?]]; [auto|]. right. split; [done|].
    intros ty' [= <-]. done.
  - destruct HS as [?|[? ?]]; [auto|]. right. split; [done|].
    intros ty' [= <-]. done.
Qed.

Lemma contained_step (pre : list event) (st st' : tracker) (e : event) :
  contained pre st →
  (∀ m, e = Enter m → Exit m ∉ pre) →
  tracker_step st e = Ok st' →
  contained (pre ++ [e]) st'.
Proof.
  intros (HF & HM & HS) Hfresh Hstep.
  destruct e as [m|m].
  - specialize (Hfresh m eq_refl).
    apply tracker_step_enter in Hstep as (HF' & HM' & HS').
    split; [|split]; eapply holds_enter; eauto.
  - apply tracker_step_exit in Hstep as (HF' & HM' & HS').
    split; [|split]; eapply holds_exit; eauto.
Qed.

Lemma run_snoc {S : Type} (step : S → event → result S) (s : S)
    (evs : list event) (e : event) :
  run step s (evs ++ [e]) = (s' ← run step s evs; step s' e).
Proof.
  revert s. induction evs as [|e' evs IH]; intros s; cbn.
  - by destruct (step s e).
  - destruct (step s e'); cbn; [apply IH|reflexivity].
Qed.

Lemma contained_run (l pre : list event) (st : tracker) :
  ordered l →
  pre `prefix_of` l →
  run tracker_step reachableDuringSSRPartial pre = Ok st →
  contained pre st.
Proof.
  intros Hord. revert st.
  induction pre as [|e pre IH] using rev_ind; intros st Hpre Hrun.
  - cbn in Hrun. simplify_eq. split; [|split]; intros n Hn; discriminate.
  - rewrite run_snoc in Hrun.
    destruct (run tracker_step reachableDuringSSRPartial pre) as [st0|] eqn:Hrun0;
      [|discriminate].
    cbn in Hrun. eapply contained_step; [apply IH| |exact Hrun]; try done.
    + by eapply prefix_app_l.
    + intros m -> Hin. destruct Hpre as [post ->].
      apply list_elem_of_lookup in Hin as [j Hj].
      assert (length pre < j); [|apply lookup_lt_Some in Hj; lia].
      apply (Hord _ _ m).
      * rewrite <- app_assoc, lookup_app_r, Nat.sub_diag by lia. done.
      * rewrite <- app_assoc, lookup_app_l by (by eapply lookup_lt_Some). done.
Qed.

(** C8. Along every document-order traversal of a tree of distinct nodes,
    started with a fresh tracker, at every point of the walk: a node held
    in [reachableFunctionThatWeAreIn], [reachableMethodThatWeAreIn] or
    [skippedBlockThatWeAreIn] has been entered and has not yet been left. *)
Theorem slots_contained
    (t : tree) (pre post : list event) (st : tracker) (n : NodeRef) :
  NoDup (nodes t) →
  events t = pre ++ post →
  run tracker_step reachableDuringSSRPartial pre = Ok st →
  reachableFunctionThatWeAreIn st = Some n
  ∨ reachableMethodThatWeAreIn st = Some n
  ∨ skippedBlockThatWeAreIn st = Some n →
  Enter n ∈ pre ∧ Exit n ∉ pre.
Proof.
  intros Hnodup Hevents Hrun Hslot.
  destruct (contained_run (events t) pre st) as (HF & HM & HS).
  - by apply ordered_events.
  - by exists post.
  - done.
  - destruct Hslot as [Hn|[Hn|Hn]];
      [apply HF in Hn|apply HM in Hn|apply HS in Hn];
      destruct Hn as (? & ? & _); done.
Qed.

End Traversal.

Section Totality.
Context `{Host}.

Lemma get_present (v : value) (k : string) :
  present v = true → get v k = Ok (fieldv v k).
Proof. by destruct v. Qed.

Lemma truthy_present (v : value) : truthy v = true → present v = true.
Proof. by destruct v. Qed.

(** Run a callback all the way down, deciding each test both ways; every
    read it makes must be backed by a [present] fact in the context. *)
Ltac run_callback :=
  unfold and_then, or_else, get2, get3;
  repeat first
    [ rewrite get_ref
    | rewrite bind_Ok
    | match goal with
      | |- context [get ?v ?k] =>
          rewrite (get_present v k) by auto using truthy_present
      end
    | match goal with
      | |- context [if ?b then _ else _] => destruct b eqn:?
      end ];
  cbn [length]; eauto.

Lemma FunctionDeclaration_total (st : tracker) (node : NodeRef) :
  is_Some (moduleInfo st) →
  ∃ st', withinLWCVisitors.FunctionDeclaration st node = Ok st'
         ∧ moduleInfo st' = moduleInfo st.
Proof.
  intros [mi Hmi]. rewrite (FunctionDeclaration_spec st node mi Hmi).
  eexists. split; [reflexivity|].
  destruct (reachableFunctionThatWeAreIn st); [done|].
  by destruct (reachable_name _ _).
Qed.

Lemma FunctionExpression_total (st : tracker) (node : NodeRef) :
  is_Some (moduleInfo st) →
  present (field node "parent") = true →
  ((fieldv (field node "parent") "type" === VStr "VariableDeclarator") = true →
   present (fieldv (field node "parent") "id") = true) →
  ∃ st', withinLWCVisitors.FunctionExpression st node = Ok st'
         ∧ moduleInfo st' = moduleInfo st.
Proof.
  intros [mi Hmi] Hp Hid. unfold withinLWCVisitors.FunctionExpression, the_moduleInfo.
  rewrite Hmi. run_callback.
Qed.

Lemma MethodDefinition_total (st : tracker) (node : NodeRef) :
  is_Some (moduleInfo st) →
  present (field node "key") = true →
  ∃ st', withinLWCVisitors.MethodDefinition st node = Ok st'
         ∧ moduleInfo st' = moduleInfo st.
Proof.
  intros [mi Hmi] Hk. unfold withinLWCVisitors.MethodDefinition, the_moduleInfo.
  rewrite Hmi. run_callback.
Qed.

Lemma tracker_enter_total (ty : string) (st : tracker) (node : NodeRef) :
  field node "type" = VStr ty →
  estree_links node = true →
  is_Some (moduleInfo st) ∨ ty = "Program" →
  ∃ st', tracker_enter ty st node = Ok st' ∧ is_Some (moduleInfo st').
Proof.
  intros Hty Hlinks Hmi. unfold estree_links in Hlinks. rewrite Hty in Hlinks.
  unfold tracker_enter. dispatch ty; subst; cbn in Hlinks.
  - eexists. split; [reflexivity|]. by eexists.
  - destruct Hmi as [[mi Hmi]|[=]].
    unfold withinLWCVisitors.ClassDeclaration, the_moduleInfo. rewrite Hmi. cbn.
    eexists. split; [reflexivity|]. case_bool_decide; cbn; by eexists.
  - destruct Hmi as [Hmi|[=]].
    destruct (FunctionDeclaration_total st node Hmi) as (st' & -> & Heq).
    eexists. split; [reflexivity|]. by rewrite Heq.
  - destruct Hmi as [Hmi|[=]]. apply andb_true_iff in Hlinks as [Hp Hid].
    destruct (FunctionExpression_total st node Hmi Hp) as (st' & -> & Heq).
    { intros Hvd. by rewrite Hvd in Hid. }
    eexists. split; [reflexivity|]. by rewrite Heq.
  - destruct Hmi as [Hmi|[=]]. apply andb_true_iff in Hlinks as [Hp Hid].
    destruct (FunctionExpression_total st node Hmi Hp) as (st' & Hrun & Heq).
    { intros Hvd. by rewrite Hvd in Hid. }
    exists st'. split; [exact Hrun|]. by rewrite Heq.
  - destruct Hmi as [Hmi|[=]].
    destruct (MethodDefinition_total st node Hmi Hlinks) as (st' & -> & Heq).
    eexists. split; [reflexivity|]. by rewrite Heq.
  - destruct Hmi as [Hmi|?]; [|done].
    unfold withinLWCVisitors.IfStatement. eexists. split; [reflexivity|].
    by destruct (isSSREscape node).
  - destruct Hmi as [Hmi|?]; [|done]. eauto.
Qed.

Lemma tracker_exit_total (ty : string) (st : tracker) (node : NodeRef) :
  is_Some (moduleInfo st) →
  ∃ st', tracker_exit ty st node = Ok st' ∧ is_Some (moduleInfo st').
Proof.
  intros Hmi. unfold tracker_exit. dispatch ty.
  - destruct Hmi as [mi Hmi].
    unfold withinLWCVisitors.ClassDeclaration_exit, the_moduleInfo. rewrite Hmi. cbn.
    eexists. split; [reflexivity|]. case_bool_decide; cbn; by eexists.
  - unfold withinLWCVisitors.FunctionDeclaration_exit.
    eexists. split; [reflexivity|]. by case_bool_decide.
  - unfold withinLWCVisitors.FunctionExpression_exit.
    eexists. split; [reflexivity|]. by case_bool_decide.
  - unfold withinLWCVisitors.ArrowFunctionExpression_exit.
    eexists. split; [reflexivity|]. by case_bool_decide.
  - eexists. split; [reflexivity|]. done.
  - unfold withinLWCVisitors.IfStatement_exit.
    eexists. split; [reflexivity|]. by case_bool_decide.
  - eauto.
Qed.

Lemma links_member (node : NodeRef) :
  field node "type" = VStr "MemberExpression" →
  estree_links node = true →
  let parent := field node "parent" in
  let object := field node "object" in
  present parent = true ∧ present object = true
  ∧ present (field node "property") = true
  ∧ ((fieldv parent "type" === VStr "MemberExpression") = true →
     present (fieldv parent "property") = true)
  ∧ ((fieldv object "type" === VStr "MemberExpression") = true →
     present (fieldv object "property") = true).
Proof.
  intros Hty Hlinks. unfold estree_links in Hlinks. rewrite Hty in Hlinks.
  cbn in Hlinks. cbv zeta.
  repeat (apply andb_true_iff in Hlinks as [Hlinks ?]).
  repeat split; try done.
  - intros E. by rewrite E in *.
  - intros E. by rewrite E in *.
Qed.

Lemma links_identifier (node : NodeRef) :
  field node "type" = VStr "Identifier" →
  estree_links node = true →
  present (field node "parent") = true.
Proof.
  intros Hty Hlinks. unfold estree_links in Hlinks. by rewrite Hty in Hlinks.
Qed.

Lemma noReferenceDuringSSR_MemberExpression_total
    (forbiddenGlobalNames : gset string) (messageIds : list string) :
  total_callback "MemberExpression"
    (noReferenceDuringSSR.MemberExpression forbiddenGlobalNames messageIds).
Proof.
  intros st node Hty Hlinks.
  destruct (links_member node Hty Hlinks) as (Hp & Ho & Hpr & Hpp & Hop).
  unfold noReferenceDuringSSR.MemberExpression. run_callback.
Qed.

Lemma noReferenceDuringSSR_Identifier_total
    (forbiddenGlobalNames : gset string) (messageIds : list string) :
  total_callback "Identifier"
    (noReferenceDuringSSR.Identifier forbiddenGlobalNames messageIds).
Proof.
  intros st node Hty Hlinks.
  pose proof (links_identifier node Hty Hlinks) as Hp.
  unfold noReferenceDuringSSR.Identifier. run_callback.
Qed.

Lemma noPropertyAccessDuringSSR_MemberExpression_total
    (forbiddenPropertyNames : list string) :
  total_callback "MemberExpression"
    (noPropertyAccessDuringSSR.MemberExpression forbiddenPropertyNames).
Proof.
  intros st node Hty Hlinks.
  destruct (links_member node Hty Hlinks) as (Hp & Ho & Hpr & Hpp & Hop).
  unfold noPropertyAccessDuringSSR.MemberExpression. run_callback.
Qed.

Lemma noNodeEnvInSSR_MemberExpression_total :
  total_callback "MemberExpression" noNodeEnvInSSR.MemberExpression.
Proof.
  intros st node Hty Hlinks.
  destruct (links_member node Hty Hlinks) as (Hp & Ho & Hpr & Hpp & Hop).
  unfold noNodeEnvInSSR.MemberExpression. run_callback.
Qed.

Lemma noReferenceDuringSSR_table_total
    (forbiddenGlobalNames : gset string) (messageIds : list string) :
  total_table (noReferenceDuringSSR_own forbiddenGlobalNames messageIds).
Proof.
  intros ty callback. unfold noReferenceDuringSSR_own. dispatch ty;
    intros [= <-]; subst; (split; [done|]).
  - apply noReferenceDuringSSR_MemberExpression_total.
  - apply noReferenceDuringSSR_Identifier_total.
Qed.

Lemma noPropertyAccessDuringSSR_table_total (forbiddenPropertyNames : list string) :
  total_table (noPropertyAccessDuringSSR_own forbiddenPropertyNames).
Proof.
  intros ty callback. unfold noPropertyAccessDuringSSR_own. dispatch ty;
    intros [= <-]; subst; (split; [done|]).
  apply noPropertyAccessDuringSSR_MemberExpression_total.
Qed.

Lemma noNodeEnvInSSR_table_total : total_table noNodeEnvInSSR_own.
Proof.
  intros ty callback. unfold noNodeEnvInSSR_own. dispatch ty;
    intros [= <-]; subst; (split; [done|]).
  apply noNodeEnvInSSR_MemberExpression_total.
Qed.

Lemma rule_step_total {R : Type}
    (own : string → option (tracker → NodeRef → result (list R)))
    (s : tracker * list R) (ev : event) :
  total_table own →
  estree_links (event_node ev) = true →
  primed s.1 ev →
  ∃ s', rule_step own s ev = Ok s'
        ∧ is_Some (moduleInfo s'.1)
        ∧ (s'.2 = s.2 ∨ (s'.1 = s.1 ∧ ∃ r, s'.2 = s.2 ++ [r])).
Proof.
  intros Hown Hlinks Hprimed. destruct s as [st acc], ev as [node|node];
    cbn [rule_step tracker_step event_node fst snd] in *.
  - destruct (field node "type") as [| | | |ty|] eqn:Hty;
      try (destruct Hprimed as [?|(? & [= <-] & ?)]; [|congruence];
           eexists; split; [reflexivity|]; by auto).
    destruct (own ty) as [callback|] eqn:Hcb.
    + destruct (Hown ty callback Hcb) as [Hne Htotal].
      destruct (Htotal st node Hty Hlinks) as (out & -> & Hlen). cbn.
      eexists. split; [reflexivity|]. cbn. split.
      * destruct Hprimed as [?|(? & [= <-] & ?)]; [done|congruence].
      * destruct out as [|r [|? ?]]; cbn in Hlen; [left|right|lia].
        -- by rewrite app_nil_r.
        -- eauto.
    + destruct (tracker_enter_total ty st node Hty Hlinks) as (st' & -> & Hmi).
      { destruct Hprimed as [?|(? & [= <-] & ?)]; [by left|right; congruence]. }
      cbn. eexists. split; [reflexivity|]. auto.
  - destruct Hprimed as [Hmi|(? & [=] & _)].
    destruct (field node "type") as [| | | |ty|] eqn:Hty;
      try (eexists; split; [reflexivity|]; by auto).
    destruct (tracker_exit_total ty st node Hmi) as (st' & -> & Hmi').
    cbn. eexists. split; [reflexivity|]. auto.
Qed.

Lemma run_total {R : Type}
    (own : string → option (tracker → NodeRef → result (list R)))
    (evs : list event) (s : tracker * list R) :
  total_table own →
  Forall (λ ev, estree_links (event_node ev) = true) evs →
  (∀ ev, head evs = Some ev → primed s.1 ev) →
  ∃ s', run (rule_step own) s evs = Ok s'.
Proof.
  intros Hown Hlinks. revert s.
  induction Hlinks as [|ev evs Hev _ IH]; intros s Hprimed; cbn [run].
  - eauto.
  - destruct (rule_step_total own s ev Hown Hev (Hprimed ev eq_refl))
      as (s1 & -> & Hmi & _).
    cbn. apply IH. intros ev' _. by left.
Qed.

Lemma lint_total {R : Type}
    (own : string → option (tracker → NodeRef → result (list R)))
    (t : tree) (pre post : list event) :
  total_table own →
  field (root t) "type" = VStr "Program" →
  Forall (λ n, estree_links n = true) (nodes t) →
  events t = pre ++ post →
  ∃ s', run (rule_step own) (reachableDuringSSRPartial, []) pre = Ok s'.
Proof.
  intros Hown Hroot Hlinks Hev. apply run_total; [done| |].
  - apply Forall_forall. intros ev Hin.
    assert (ev ∈ events t) as Hin' by (rewrite Hev; apply elem_of_app; auto).
    rewrite Forall_forall in Hlinks. apply Hlinks.
    destruct ev; cbn; [by apply Enter_events_nodes|by apply Exit_events_nodes].
  - intros ev Hhead. right. exists (root t). split; [|done].
    destruct t as [n cs]. destruct pre as [|e pre]; [done|].
    cbn in Hhead, Hev |- *. congruence.
Qed.

Lemma total_table_rule {R : Type}
    (own : string → option (tracker → NodeRef → result (list R))) :
  total_table own → total_rule own.
Proof.
  intros Hown. split.
  - intros s ev. by apply rule_step_total.
  - intros t pre post. by apply lint_total.
Qed.

Lemma silent_in_skipped_block
    (forbiddenGlobalNames : gset string) (messageIds : list string)
    (forbiddenPropertyNames : list string) (st : tracker) (node : NodeRef) :
  isInsideSkippedBlock st = true →
  noReferenceDuringSSR.MemberExpression forbiddenGlobalNames messageIds st node = Ok []
  ∧ noReferenceDuringSSR.Identifier forbiddenGlobalNames messageIds st node = Ok []
  ∧ noPropertyAccessDuringSSR.MemberExpression forbiddenPropertyNames st node = Ok []
  ∧ noNodeEnvInSSR.MemberExpression st node = Ok [].
Proof.
  intros Hskip.
  unfold noReferenceDuringSSR.MemberExpression, noReferenceDuringSSR.Identifier,
    noPropertyAccessDuringSSR.MemberExpression, noNodeEnvInSSR.MemberExpression.
  rewrite (notReachable_skipped st node Hskip), Hskip, orb_true_r. done.
Qed.

End Totality.

Section PropertyRule.
Context `{Host}.
Variable forbiddenPropertyNames : list string.

(** C5. Rule [noPropertyAccessDuringSSR] passes a member access to the
    reporter if and only if the tracker is inside a reachable method and
    outside a skipped block, the object of the access is [this] and its
    property is an identifier named in the forbidden list; in that case
    it is passed exactly once, and outside a reachable method nothing is
    passed. *)
Theorem this_property_reported_iff (st : tracker) (node : NodeRef) :
  (noPropertyAccessDuringSSR.MemberExpression forbiddenPropertyNames st node = Ok [node]
   ↔ isInsideReachableMethod st = true
     ∧ isInsideSkippedBlock st = false
     ∧ ∃ object property x,
         field node "object" = VRef object
         ∧ field object "type" = VStr "ThisExpression"
         ∧ field node "property" = VRef property
         ∧ field property "type" = VStr "Identifier"
         ∧ field property "name" = VStr x
         ∧ x ∈ forbiddenPropertyNames)
  ∧ (isInsideReachableMethod st = false →
     noPropertyAccessDuringSSR.MemberExpression forbiddenPropertyNames st node = Ok []).
Proof.
  unfold noPropertyAccessDuringSSR.MemberExpression. split; [split|].
  - destruct (isInsideReachableMethod st); [|discriminate].
    destruct (isInsideSkippedBlock st); [discriminate|]. cbn [negb orb].
    intros Hrun. split; [reflexivity|]. split; [reflexivity|].
    js_simpl_in Hrun.
    destruct (field node "object") as [| | | | |object] eqn:Ho; try discriminate.
    js_simpl_in Hrun.
    destruct (field object "type" === VStr "ThisExpression") eqn:Hot;
      [|discriminate].
    js_simpl_in Hrun.
    destruct (field node "property") as [| | | | |property] eqn:Hp; try discriminate.
    js_simpl_in Hrun.
    destruct (field property "type" === VStr "Identifier") eqn:Hpt;
      [|discriminate].
    js_simpl_in Hrun.
    destruct (field property "name") as [| | | |x|] eqn:Hn;
      cbn [includes] in Hrun; try discriminate.
    destruct (bool_decide (x ∈ forbiddenPropertyNames)) eqn:Hx; [|discriminate].
    exists object, property, x.
    apply strict_eq_true in Hot, Hpt. apply bool_decide_eq_true in Hx. done.
  - intros (-> & -> & object & property & x & Ho & Hot & Hp & Hpt & Hn & Hx).
    cbn [negb orb]. js_simpl. cbn [includes].
    rewrite (bool_decide_eq_true_2 _ Hx). reflexivity.
  - intros ->. reflexivity.
Qed.

End PropertyRule.

Section NodeEnvRule.
Context `{Host}.

(** C6. Rule [noNodeEnvInSSR] reports a member access exactly once, with
    message [nodeEnvFound], when its property is the identifier
    [NODE_ENV] and its object is a member access with property identifier
    [env] on the identifier [process], inside a reachable function or
    method or at module scope and outside a skipped block; with any other
    identifier in the place of [process] it reports nothing. *)
Theorem node_env_reported_once
    (st : tracker) (node property object base env : NodeRef) (y : string) :
  field node "property" = VRef property →
  field property "type" = VStr "Identifier" →
  field property "name" = VStr "NODE_ENV" →
  field node "object" = VRef object →
  field object "type" = VStr "MemberExpression" →
  field object "object" = VRef base →
  field base "type" = VStr "Identifier" →
  field base "name" = VStr y →
  field object "property" = VRef env →
  field env "type" = VStr "Identifier" →
  field env "name" = VStr "env" →
  (y = "process" →
   isInsideReachableMethod st || isInsideReachableFunction st || inModuleScope node = true →
   isInsideSkippedBlock st = false →
   noNodeEnvInSSR.MemberExpression st node
   = Ok [ {| messageId := VStr "nodeEnvFound";
             reported := node;
             data_identifier := VStr "NODE_ENV";
             data_property := None |} ])
  ∧ (y ≠ "process" → noNodeEnvInSSR.MemberExpression st node = Ok []).
Proof.
  intros Hp Hpt Hpn Ho Hot Hoo Hbt Hbn Hop Het Hen.
  unfold noNodeEnvInSSR.MemberExpression. split.
  - intros -> Hreach Hskip.
    rewrite (notReachable_false st node Hreach Hskip).
    js_simpl. cbn [truthy]. js_simpl. reflexivity.
  - intros Hy. destruct (notReachable st node); [reflexivity|].
    assert (String.eqb y "process" = false) as Hneq by by apply String.eqb_neq.
    js_simpl. cbn [truthy]. js_simpl. rewrite Hneq. js_simpl. reflexivity.
Qed.

End NodeEnvRule.

(** * The properties on the sample module *)

Section OnTheSample.
Import Sample.

Ltac by_eval := vm_compute; first [reflexivity | discriminate | done].

Example sample_noReferenceDuringSSR :
  violations (lint_noReferenceDuringSSR forbiddenGlobalNames messageIds (events program))
  = Ok [ kind_A 103 "window";
         {| messageId := VStr "prohibitedBrowserAPIUsageGlobal";
            reported := 12;
            data_identifier := VStr "document";
            data_property := Some (VStr "addEventListener") |};
         kind_A 32 "window";
         kind_A 51 "document" ].
Proof. by_eval. Qed.

Example sample_noPropertyAccessDuringSSR :
  violations (lint_noPropertyAccessDuringSSR forbiddenPropertyNames (events program))
  = Ok [40].
Proof. by_eval. Qed.

Example sample_noNodeEnvInSSR :
  violations (lint_noNodeEnvInSSR (events program))
  = Ok [ {| messageId := VStr "nodeEnvFound";
            reported := 70;
            data_identifier := VStr "NODE_ENV";
            data_property := None |} ].
Proof. by_eval. Qed.

(** Witness of C1: [globalThis.document.addEventListener()] (node 12) and
    [globalThis.document?.addEventListener()] (node 22) inside
    [connectedCallback]. *)
Lemma globalThis_chain_reported_once_witness :
  noReferenceDuringSSR.MemberExpression forbiddenGlobalNames messageIds inside_method 12
  = Ok [ {| messageId := VStr "prohibitedBrowserAPIUsageGlobal";
            reported := 12;
            data_identifier := VStr "document";
            data_property := Some (VStr "addEventListener") |} ]
  ∧ noReferenceDuringSSR.MemberExpression forbiddenGlobalNames messageIds inside_method 22
    = Ok [].
Proof.
  split.
  - etransitivity; [|by_eval].
    refine (proj1 (globalThis_chain_reported_once forbiddenGlobalNames messageIds
                     inside_method 12 11 13 14 15 "document"
                     _ _ _ _ _ _ _ _ _ _ _ _ _) _); by_eval.
  - refine (proj2 (globalThis_chain_reported_once forbiddenGlobalNames messageIds
                     inside_method 22 21 23 24 25 "document"
                     _ _ _ _ _ _ _ _ _ _ _ _ _) _); by_eval.
Defined.

(** Counterexample to C2: [document?.addEventListener()] (node 51) is a
    null-safe access inside a reachable method, and it is reported. *)
Lemma optional_access_on_forbidden_global_reported :
  field 51 "optional" = VBool true
  ∧ isInsideReachableMethod inside_method = true
  ∧ isInsideSkippedBlock inside_method = false
  ∧ noReferenceDuringSSR.MemberExpression forbiddenGlobalNames messageIds inside_method 51
    = Ok [kind_A 51 "document"]
  ∧ noReferenceDuringSSR.MemberExpression forbiddenGlobalNames messageIds inside_method 51
    ≠ Ok [].
Proof. repeat split; by_eval. Qed.

(** Witness of C2 as amended: [globalThis?.addEventListener()] (node 131)
    is exempt, [document?.addEventListener()] (node 51) is reported. *)
Lemma optional_access_exemption_witness :
  noReferenceDuringSSR.MemberExpression forbiddenGlobalNames messageIds inside_method 131
  = Ok []
  ∧ noReferenceDuringSSR.MemberExpression forbiddenGlobalNames messageIds inside_method 51
    = Ok [kind_A 51 "document"].
Proof.
  split.
  - refine (proj1 (optional_access_exemption forbiddenGlobalNames messageIds
                     inside_method 131 130 132 133 _ _ _ _ _) _); try by_eval.
    intros x Hx. vm_compute in Hx. injection Hx as <-. by_eval.
  - etransitivity; [|by_eval].
    refine (proj2 (optional_access_exemption forbiddenGlobalNames messageIds
                     inside_method 51 50 52 53 _ _ _ _ _)
              "document" _ _ _ _ _ _ _ _); by_eval.
Defined.

(** Counterexample to C3: in [foo[window]] the identifier [window]
    (node 62) is not the object of its parent (node 61 is), it is
    forbidden and global, the walk is inside a reachable method, and yet
    nothing is reported for it. *)
Lemma computed_property_identifier_not_reported :
  field 62 "type" = VStr "Identifier"
  ∧ field 62 "name" = VStr "window"
  ∧ "window" ∈ forbiddenGlobalNames
  ∧ field 62 "parent" = VRef 60
  ∧ field 60 "object" = VRef 61
  ∧ isGlobalIdentifier 62 (getScope 62) = true
  ∧ isInsideReachableMethod inside_method = true
  ∧ isInsideSkippedBlock inside_method = false
  ∧ noReferenceDuringSSR.Identifier forbiddenGlobalNames messageIds inside_method 62
    = Ok [].
Proof. repeat split; by_eval. Qed.

(** Witness of C3 as amended: the argument of [doSomethingWith(window)]
    (node 32) and the shadowed argument of [use(window)] (node 39). *)
Lemma bare_identifier_reported_once_witness :
  noReferenceDuringSSR.Identifier forbiddenGlobalNames messageIds inside_method 32
  = Ok [kind_A 32 "window"]
  ∧ noReferenceDuringSSR.Identifier forbiddenGlobalNames messageIds inside_method 39
    = Ok [].
Proof.
  split.
  - etransitivity; [|by_eval].
    refine (proj1 (bare_identifier_reported_once forbiddenGlobalNames messageIds
                     inside_method 32 30 "window" _ _ _ _ _ _) _); by_eval.
  - refine (proj2 (bare_identifier_reported_once forbiddenGlobalNames messageIds
                     inside_method 39 37 "window" _ _ _ _ _ _) _); by_eval.
Defined.

(** C4. Inside the guard at node 100, after the nested guard at node 101
    has been left, [skippedBlockThatWeAreIn] is empty again, and the access
    [window.foo] (node 103), which still lies inside the outer guard, is
    reported. *)
Theorem nested_guard_unsilences_outer_guard :
  isSSREscape 100 = true
  ∧ isSSREscape 101 = true
  ∧ 100 ∈ getAncestors 103
  ∧ skippedBlockThatWeAreIn
      <$> run tracker_step reachableDuringSSRPartial [Enter 0; Enter 100]
    = Ok (Some 100)
  ∧ skippedBlockThatWeAreIn
      <$> run tracker_step reachableDuringSSRPartial
            [Enter 0; Enter 100; Enter 101; Exit 101]
    = Ok None
  ∧ violations (lint_noReferenceDuringSSR forbiddenGlobalNames messageIds
                  (events (Node 0 [guarded])))
    = Ok [kind_A 103 "window"].
Proof.
  repeat split; try by_eval.
  apply list_elem_of_In. vm_compute. auto.
Qed.

(** Witness of C5: [this.template] inside [connectedCallback] (node 40)
    and inside the function [foo] (node 120). *)
Lemma this_property_reported_iff_witness :
  noPropertyAccessDuringSSR.MemberExpression forbiddenPropertyNames inside_method 40
  = Ok [40]
  ∧ noPropertyAccessDuringSSR.MemberExpression forbiddenPropertyNames inside_function 120
    = Ok [].
Proof.
  split.
  - apply (proj1 (this_property_reported_iff forbiddenPropertyNames inside_method 40)).
    split; [by_eval|]. split; [by_eval|].
    exists 41, 42, "template". repeat split; try by_eval.
    apply list_elem_of_In. vm_compute. auto.
  - apply (proj2 (this_property_reported_iff forbiddenPropertyNames inside_function 120)).
    by_eval.
Defined.

(** Witness of C6: [process.env.NODE_ENV] (node 70) and
    [someOther.env.NODE_ENV] (node 80) inside the function [foo]. *)
Lemma node_env_reported_once_witness :
  noNodeEnvInSSR.MemberExpression inside_function 70
  = Ok [ {| messageId := VStr "nodeEnvFound";
            reported := 70;
            data_identifier := VStr "NODE_ENV";
            data_property := None |} ]
  ∧ noNodeEnvInSSR.MemberExpression inside_function 80 = Ok [].
Proof.
  split.
  - refine (proj1 (node_env_reported_once inside_function 70 74 71 72 73 "process"
                     _ _ _ _ _ _ _ _ _ _ _) _ _ _); by_eval.
  - refine (proj2 (node_env_reported_once inside_function 80 84 81 82 83 "someOther"
                     _ _ _ _ _ _ _ _ _ _ _) _); by_eval.
Defined.

(** Counterexample to C7: [bar] (node 112) is a reachable function entered
    inside the reachable function [foo] (node 110); the slot keeps [foo],
    not the innermost of the two. *)
Lemma inner_reachable_function_not_recorded :
  identifier_name (field 112 "id") = Some "bar"
  ∧ "bar" ∈ moduleScopedFunctionsReachableDuringSSR (analyze 0)
  ∧ reachableFunctionThatWeAreIn
      <$> run tracker_step reachableDuringSSRPartial [Enter 0; Enter 110; Enter 111; Exit 111]
    = Ok (Some 110)
  ∧ reachableFunctionThatWeAreIn
      <$> run tracker_step reachableDuringSSRPartial
            [Enter 0; Enter 110; Enter 111; Exit 111; Enter 112]
    = Ok (Some 110)
  ∧ reachableFunctionThatWeAreIn
      <$> run tracker_step reachableDuringSSRPartial
            [Enter 0; Enter 110; Enter 111; Exit 111; Enter 112]
    ≠ Ok (Some 112).
Proof. repeat split; by_eval. Qed.

(** Witness of C7 as amended: entering the arrow function bound to [baz]
    (node 142) with an empty slot records it; entering [bar] (node 112)
    inside [foo] leaves the tracker as it is. *)
Lemma reachable_function_slot_witness :
  withinLWCVisitors.ArrowFunctionExpression after_program 142
  = Ok (set_reachableFunction (Some 142) after_program)
  ∧ withinLWCVisitors.FunctionDeclaration inside_function 112 = Ok inside_function.
Proof.
  split.
  - etransitivity; [|by_eval].
    refine (proj2 (proj2 (proj1 (reachable_function_slot after_program 142 140
                                   (analyze 0) _ _ _)))); try by_eval.
    intros _. exists 141. by_eval.
  - refine (proj1 (proj2 (proj2 (reachable_function_slot inside_function 112 110
                                   (analyze 0) _ _ _)) 110 _)); by_eval.
Defined.

(** Witness of C8: three events into the sample, the skipped-block slot
    holds the nested guard (node 101), which has been entered and not
    left. *)
Lemma slots_contained_witness :
  Enter 101 ∈ [Enter 0; Enter 100; Enter 101]
  ∧ Exit 101 ∉ [Enter 0; Enter 100; Enter 101].
Proof.
  refine (slots_contained program [Enter 0; Enter 100; Enter 101]
            (drop 3 (events program))
            (set_skippedBlock (Some 101) after_program) 101 _ _ _ _).
  - apply (bool_decide_unpack _). by_eval.
  - by_eval.
  - by_eval.
  - right. right. reflexivity.
Defined.

(** Witness of C9: [document.body.addEventListener()], outer access 91,
    inner access 92, identifier 93. *)
Lemma chained_access_on_global_not_reported_witness :
  noReferenceDuringSSR.MemberExpression forbiddenGlobalNames messageIds inside_method 92
  = Ok []
  ∧ noReferenceDuringSSR.MemberExpression forbiddenGlobalNames messageIds inside_method 91
    = Ok []
  ∧ noReferenceDuringSSR.Identifier forbiddenGlobalNames messageIds inside_method 93
    = Ok [].
Proof.
  refine (chained_access_on_global_not_reported forbiddenGlobalNames messageIds
            inside_method 91 92 93 90 "document" _ _ _ _ _ _ _ _ _ _); by_eval.
Defined.

End OnTheSample.

(** * The callbacks and their calls *)

Section CallsFacts.
Context `{Host}.
Variable calls : Calls Scope.
Hypothesis Hreturning : returning calls.

Lemma Program_returning (st : tracker) (node : NodeRef) :
  Calling.Program calls st node = withinLWCVisitors.Program st node.
Proof.
  destruct Hreturning as (Ha & _). unfold Calling.Program. by rewrite Ha.
Qed.

Lemma IfStatement_returning (st : tracker) (node : NodeRef) :
  Calling.IfStatement calls st node = withinLWCVisitors.IfStatement st node.
Proof.
  destruct Hreturning as (_ & He & _). unfold Calling.IfStatement. by rewrite He.
Qed.

Lemma notReachable_returning (st : tracker) (node : NodeRef) :
  Calling.notReachable calls st node = Ok (notReachable st node).
Proof.
  destruct Hreturning as (_ & _ & Hanc & _).
  unfold Calling.notReachable, Calling.inModuleScope, notReachable, inModuleScope.
  rewrite Hanc, !bind_Ok.
  by destruct (isInsideReachableMethod st), (isInsideReachableFunction st),
    (inModuleScope_loop (getAncestors node)), (isInsideSkippedBlock st).
Qed.

Lemma isGlobal_returning (o : value) (node : NodeRef) :
  Calling.isGlobal calls o node
  = Ok (match o with
        | VRef r => isGlobalIdentifier r (getScope node)
        | _ => false
        end).
Proof.
  destruct Hreturning as (_ & _ & _ & Hs & Hg & _).
  unfold Calling.isGlobal. rewrite Hs, bind_Ok. by destruct o.
Qed.

Lemma isGlobal_bind (m : result value) (node : NodeRef) :
  (o ← m; Calling.isGlobal calls o node)
  = (o ← m; Ok (match o with
                | VRef r => isGlobalIdentifier r (getScope node)
                | _ => false
                end)).
Proof.
  destruct m as [o|e]; [|reflexivity]. rewrite !bind_Ok. apply isGlobal_returning.
Qed.

Lemma context_report_returning (r : report) :
  Calling.context_report calls r = Ok [r].
Proof.
  destruct Hreturning as (_ & _ & _ & _ & _ & Hr & _).
  unfold Calling.context_report. by rewrite Hr.
Qed.

Lemma reporter_returning (node : NodeRef) :
  Calling.reporter calls node = Ok [node].
Proof.
  destruct Hreturning as (_ & _ & _ & _ & _ & _ & Hr).
  unfold Calling.reporter. by rewrite Hr.
Qed.

(** Two callbacks that differ only in how a report leaves them. *)
Ltac same_reports :=
  repeat first
    [ reflexivity
    | apply context_report_returning
    | apply reporter_returning
    | match goal with
      | |- (?m ≫= _) = (?m ≫= _) =>
          destruct m as [?|?]; [rewrite !bind_Ok; cbv beta|reflexivity]
      | |- (if ?b then _ else _) = (if ?b then _ else _) => destruct b
      | |- (if ?b then _ else _) = Ok (if ?b then _ else _) => destruct b
      end ].

Lemma tracker_enter_returning (ty : string) (st : tracker) (node : NodeRef) :
  Calling.tracker_enter calls ty st node = tracker_enter ty st node.
Proof.
  unfold Calling.tracker_enter, tracker_enter.
  by rewrite Program_returning, IfStatement_returning.
Qed.

Lemma noReferenceDuringSSR_MemberExpression_returning
    (forbiddenGlobalNames : gset string) (messageIds : list string)
    (st : tracker) (node : NodeRef) :
  Calling.noReferenceDuringSSR_MemberExpression calls forbiddenGlobalNames messageIds st node
  = noReferenceDuringSSR.MemberExpression forbiddenGlobalNames messageIds st node.
Proof.
  unfold Calling.noReferenceDuringSSR_MemberExpression,
    noReferenceDuringSSR.MemberExpression.
  rewrite notReachable_returning, bind_Ok.
  destruct (notReachable st node); [reflexivity|].
  rewrite !isGlobal_bind. same_reports.
Qed.

Lemma noReferenceDuringSSR_Identifier_returning
    (forbiddenGlobalNames : gset string) (messageIds : list string)
    (st : tracker) (node : NodeRef) :
  Calling.noReferenceDuringSSR_Identifier calls forbiddenGlobalNames messageIds st node
  = noReferenceDuringSSR.Identifier forbiddenGlobalNames messageIds st node.
Proof.
  unfold Calling.noReferenceDuringSSR_Identifier, noReferenceDuringSSR.Identifier.
  rewrite notReachable_returning, bind_Ok.
  destruct (notReachable st node); [reflexivity|].
  rewrite isGlobal_returning. same_reports.
Qed.

Lemma noNodeEnvInSSR_MemberExpression_returning (st : tracker) (node : NodeRef) :
  Calling.noNodeEnvInSSR_MemberExpression calls st node
  = noNodeEnvInSSR.MemberExpression st node.
Proof.
  unfold Calling.noNodeEnvInSSR_MemberExpression, noNodeEnvInSSR.MemberExpression.
  rewrite notReachable_returning, bind_Ok. same_reports.
Qed.

Lemma noPropertyAccessDuringSSR_MemberExpression_returning
    (forbiddenPropertyNames : list string) (st : tracker) (node : NodeRef) :
  Calling.noPropertyAccessDuringSSR_MemberExpression calls forbiddenPropertyNames st node
  = noPropertyAccessDuringSSR.MemberExpression forbiddenPropertyNames st node.
Proof.
  unfold Calling.noPropertyAccessDuringSSR_MemberExpression,
    noPropertyAccessDuringSSR.MemberExpression.
  same_reports.
Qed.

Lemma rule_step_returning {R : Type}
    (own_calling own : string → option (tracker → NodeRef → result (list R))) :
  (∀ ty, match own_calling ty, own ty with
         | Some c, Some p => ∀ st node, c st node = p st node
         | None, None => True
         | _, _ => False
         end) →
  ∀ s ev, Calling.rule_step calls own_calling s ev = rule_step own s ev.
Proof.
  intros Hown s [node|node]; cbn [Calling.rule_step rule_step]; [|reflexivity].
  destruct (field node "type") as [| | | |ty|]; try reflexivity.
  specialize (Hown ty).
  destruct (own_calling ty) as [c|], (own ty) as [p|]; try done.
  - by rewrite Hown.
  - by rewrite tracker_enter_returning.
Qed.

Lemma run_ext {S : Type} (f g : S → event → result S) :
  (∀ s ev, f s ev = g s ev) → ∀ evs s, run f s evs = run g s evs.
Proof.
  intros Hfg evs. induction evs as [|ev evs IH]; intros s; cbn [run]; [done|].
  rewrite Hfg. destruct (g s ev) as [s'|e]; cbn; [apply IH|done].
Qed.

Lemma noReferenceDuringSSR_own_returning
    (forbiddenGlobalNames : gset string) (messageIds : list string) (ty : string) :
  match Calling.noReferenceDuringSSR_own calls forbiddenGlobalNames messageIds ty,
        noReferenceDuringSSR_own forbiddenGlobalNames messageIds ty with
  | Some c, Some p => ∀ st node, c st node = p st node
  | None, None => True
  | _, _ => False
  end.
Proof.
  unfold Calling.noReferenceDuringSSR_own, noReferenceDuringSSR_own.
  destruct (String.eqb ty "MemberExpression");
    [apply noReferenceDuringSSR_MemberExpression_returning|].
  destruct (String.eqb ty "Identifier");
    [apply noReferenceDuringSSR_Identifier_returning|done].
Qed.

Lemma noNodeEnvInSSR_own_returning (ty : string) :
  match Calling.noNodeEnvInSSR_own calls ty, noNodeEnvInSSR_own ty with
  | Some c, Some p => ∀ st node, c st node = p st node
  | None, None => True
  | _, _ => False
  end.
Proof.
  unfold Calling.noNodeEnvInSSR_own, noNodeEnvInSSR_own.
  destruct (String.eqb ty "MemberExpression");
    [apply noNodeEnvInSSR_MemberExpression_returning|done].
Qed.

Lemma noPropertyAccessDuringSSR_own_returning
    (forbiddenPropertyNames : list string) (ty : string) :
  match Calling.noPropertyAccessDuringSSR_own calls forbiddenPropertyNames ty,
        noPropertyAccessDuringSSR_own forbiddenPropertyNames ty with
  | Some c, Some p => ∀ st node, c st node = p st node
  | None, None => True
  | _, _ => False
  end.
Proof.
  unfold Calling.noPropertyAccessDuringSSR_own, noPropertyAccessDuringSSR_own.
  destruct (String.eqb ty "MemberExpression");
    [apply noPropertyAccessDuringSSR_MemberExpression_returning|done].
Qed.

Lemma total_rule_returning {R : Type}
    (own_calling own : string → option (tracker → NodeRef → result (list R))) :
  (∀ ty, match own_calling ty, own ty with
         | Some c, Some p => ∀ st node, c st node = p st node
         | None, None => True
         | _, _ => False
         end) →
  total_table own →
  total_rule_calling (Calling.rule_step calls own_calling).
Proof.
  intros Hown Htable. split.
  - intros s ev Hlinks Hprimed. rewrite (rule_step_returning _ _ Hown).
    by apply rule_step_total.
  - intros t pre post Hroot Hlinks Hev.
    rewrite (run_ext _ _ (rule_step_returning _ _ Hown)).
    by apply (lint_total own t pre post).
Qed.

(** When every call returns, a traversal goes as the callbacks without
    their calls say. *)
Lemma lint_returning
    (forbiddenGlobalNames : gset string) (messageIds : list string)
    (forbiddenPropertyNames : list string) (evs : list event) :
  Calling.lint_noReferenceDuringSSR calls forbiddenGlobalNames messageIds evs
  = lint_noReferenceDuringSSR forbiddenGlobalNames messageIds evs
  ∧ Calling.lint_noPropertyAccessDuringSSR calls forbiddenPropertyNames evs
    = lint_noPropertyAccessDuringSSR forbiddenPropertyNames evs
  ∧ Calling.lint_noNodeEnvInSSR calls evs = lint_noNodeEnvInSSR evs.
Proof.
  split; [|split]; apply run_ext, rule_step_returning.
  - apply noReferenceDuringSSR_own_returning.
  - apply noPropertyAccessDuringSSR_own_returning.
  - apply noNodeEnvInSSR_own_returning.
Qed.

End CallsFacts.

Section CallsReturn.
Context `{H : Host}.
Variable calls : Calls Scope.
Hypothesis Hreturns : returns calls.

Lemma returning_host_of_calls : returning (H := host_of_calls calls) calls.
Proof.
  destruct Hreturns as (Ha & He & Hanc & Hs & Hg & Hr).
  unfold returning. cbn. split; [|split; [|split; [|split; [|split]]]]; [..|done].
  - intros n. by destruct (Ha n) as [? ->].
  - intros n. by destruct (He n) as [? ->].
  - intros n. by destruct (Hanc n) as [? ->].
  - intros n. by destruct (Hs n) as [? ->].
  - intros n scope. by destruct (Hg n scope) as [? ->].
Qed.

Lemma total_rule_calling_host {R : Type}
    (step : tracker * list R → event → result (tracker * list R)) :
  total_rule_calling (H := host_of_calls calls) step → total_rule_calling step.
Proof. intros Htotal. exact Htotal. Qed.

End CallsReturn.

Section Propagation.
Context `{Host}.
Variable calls : Calls Scope.

(** No callback catches what a call throws. *)
Lemma Program_propagates (st : tracker) (node : NodeRef) (e : error) :
  call_analyze calls node = Throw e → Calling.Program calls st node = Throw e.
Proof. intros Hcall. unfold Calling.Program. by rewrite Hcall. Qed.

Lemma IfStatement_propagates (st : tracker) (node : NodeRef) (e : error) :
  call_isSSREscape calls node = Throw e → Calling.IfStatement calls st node = Throw e.
Proof. intros Hcall. unfold Calling.IfStatement. by rewrite Hcall. Qed.

Lemma notReachable_propagates (st : tracker) (node : NodeRef) (e : error) :
  isInsideReachableMethod st = false →
  isInsideReachableFunction st = false →
  call_getAncestors calls node = Throw e →
  Calling.notReachable calls st node = Throw e.
Proof.
  intros Hm Hf Hcall. unfold Calling.notReachable, Calling.inModuleScope.
  by rewrite Hm, Hf, Hcall.
Qed.

End Propagation.

Section Calls.
Context `{H : Host}.
Variable calls : Calls Scope.

(** C10 (as amended). On nodes that carry the links ESTree requires of
    their kind, as every node that a parser produces does, once the
    [Program] callback has stored the module information, and provided
    that the calls to [analyze], [isSSREscape], [context.getAncestors],
    [context.getScope], [isGlobalIdentifier], [context.report] and
    [reporter] return, no callback of the tracker or of the three rules
    throws: every event delivered to a rule returns, and either leaves
    the reports as they are (the tracker may have moved) or leaves the
    tracker as it is and adds exactly one report.  Hence a traversal of a
    tree of such nodes rooted at a [Program] node runs to its end under
    each rule. *)
Theorem callbacks_total_when_calls_return
    (forbiddenGlobalNames : gset string) (messageIds : list string)
    (forbiddenPropertyNames : list string) :
  returns calls →
  total_rule_calling
    (Calling.rule_step calls
       (Calling.noReferenceDuringSSR_own calls forbiddenGlobalNames messageIds))
  ∧ total_rule_calling
      (Calling.rule_step calls
         (Calling.noPropertyAccessDuringSSR_own calls forbiddenPropertyNames))
  ∧ total_rule_calling (Calling.rule_step calls (Calling.noNodeEnvInSSR_own calls)).
Proof.
  intros Hreturns.
  pose proof (returning_host_of_calls calls Hreturns) as Hreturning.
  split; [|split]; apply (total_rule_calling_host calls).
  - exact (total_rule_returning (H := host_of_calls calls) calls Hreturning _ _
             (noReferenceDuringSSR_own_returning (H := host_of_calls calls) calls
                Hreturning forbiddenGlobalNames messageIds)
             (noReferenceDuringSSR_table_total (H := host_of_calls calls)
                forbiddenGlobalNames messageIds)).
  - exact (total_rule_returning (H := host_of_calls calls) calls Hreturning _ _
             (noPropertyAccessDuringSSR_own_returning (H := host_of_calls calls) calls
                Hreturning forbiddenPropertyNames)
             (noPropertyAccessDuringSSR_table_total (H := host_of_calls calls)
                forbiddenPropertyNames)).
  - exact (total_rule_returning (H := host_of_calls calls) calls Hreturning _ _
             (noNodeEnvInSSR_own_returning (H := host_of_calls calls) calls Hreturning)
             (noNodeEnvInSSR_table_total (H := host_of_calls calls))).
Qed.

End Calls.

Section CallsOnTheSample.
Import Sample.

Ltac by_eval := vm_compute; first [reflexivity | discriminate | done].

(** Witness of C10 as amended: every call of the sample's host returns,
    and the whole sample is linted to the end by each of the three
    rules. *)
Lemma callbacks_total_when_calls_return_witness :
  returns calls_of_host
  ∧ (∃ s, Calling.lint_noReferenceDuringSSR calls_of_host forbiddenGlobalNames messageIds
            (events program) = Ok s)
  ∧ (∃ s, Calling.lint_noPropertyAccessDuringSSR calls_of_host forbiddenPropertyNames
            (events program) = Ok s)
  ∧ (∃ s, Calling.lint_noNodeEnvInSSR calls_of_host (events program) = Ok s).
Proof.
  assert (returns calls_of_host) as Hreturns.
  { repeat split; intros; eexists; reflexivity. }
  assert (Forall (λ n, estree_links n = true) (nodes program)) as Hlinks.
  { apply (bool_decide_unpack _). by_eval. }
  assert (events program = events program ++ []) as Hall by by_eval.
  assert (field (root program) "type" = VStr "Program") as Hroot by by_eval.
  destruct (callbacks_total_when_calls_return calls_of_host forbiddenGlobalNames
              messageIds forbiddenPropertyNames Hreturns)
    as ((_ & H1) & (_ & H2) & (_ & H3)).
  split; [exact Hreturns|]. split; [|split].
  - exact (H1 program (events program) [] Hroot Hlinks Hall).
  - exact (H2 program (events program) [] Hroot Hlinks Hall).
  - exact (H3 program (events program) [] Hroot Hlinks Hall).
Defined.

(** Counterexample to C10: the sample module is what a parser produces
    (each of its nodes carries the links ESTree requires), the call to
    [analyze] throws, and so does the [Program] callback on the root, a
    node of a registered kind, and with it the traversal under each of the
    three rules. *)
Lemma analyze_throw_leaves_Program :
  forallb estree_links (nodes program) = true
  ∧ field (root program) "type" = VStr "Program"
  ∧ call_analyze Throwing.calls (root program) = Throw TypeError
  ∧ Calling.Program Throwing.calls reachableDuringSSRPartial (root program)
    = Throw TypeError
  ∧ Calling.lint_noReferenceDuringSSR Throwing.calls forbiddenGlobalNames messageIds
      (events program) = Throw TypeError
  ∧ Calling.lint_noPropertyAccessDuringSSR Throwing.calls forbiddenPropertyNames
      (events program) = Throw TypeError
  ∧ Calling.lint_noNodeEnvInSSR Throwing.calls (events program) = Throw TypeError.
Proof. repeat split; vm_compute; reflexivity. Qed.

End CallsOnTheSample.

(** The links cannot be left out: under a variable declarator that has
    no [id], which no parser produces, the [FunctionExpression] callback
    throws on the function expression (node 2), as does the whole
    traversal under each rule. *)
Lemma declarator_without_id_throws :
  estree_links (H := Malformed.host) 2 = false
  ∧ field (H := Malformed.host) 2 "type" = VStr "FunctionExpression"
  ∧ field (H := Malformed.host) 1 "type" = VStr "VariableDeclarator"
  ∧ field (H := Malformed.host) 1 "id" = VUndefined
  ∧ withinLWCVisitors.FunctionExpression (H := Malformed.host)
      (set_moduleInfo (analyze (Host := Malformed.host) 0) reachableDuringSSRPartial) 2
    = Throw TypeError
  ∧ lint_noReferenceDuringSSR (H := Malformed.host) ∅ [] (events Malformed.program)
    = Throw TypeError
  ∧ lint_noPropertyAccessDuringSSR (H := Malformed.host) [] (events Malformed.program)
    = Throw TypeError
  ∧ lint_noNodeEnvInSSR (H := Malformed.host) (events Malformed.program)
    = Throw TypeError.
Proof. repeat split; vm_compute; reflexivity. Qed.

(** * Further properties of the callbacks *)

Section Inversion.
Context `{Host}.

Lemma get_absent (v : value) (k : string) :
  present v = false → get v k = Throw TypeError.
Proof. by destruct v. Qed.

Lemma bind_Throw {A B : Type} (e : error) (f : A → result B) :
  (Throw e ≫= f) = Throw e.
Proof. reflexivity. Qed.

Lemma fieldv_VStr (v : value) (k s : string) :
  fieldv v k = VStr s → ∃ r, v = VRef r ∧ field r k = VStr s.
Proof. destruct v; try discriminate. eauto. Qed.

Lemma set_has_true (s : gset string) (v : value) :
  set_has s v = true ↔ ∃ x, v = VStr x ∧ x ∈ s.
Proof.
  split.
  - destruct v as [| | | |x|]; try discriminate.
    intros Hx%bool_decide_eq_true. eauto.
  - intros (x & -> & Hx). by apply bool_decide_eq_true.
Qed.

Lemma bind_inv {A B : Type} (m : result A) (f : A → result B) (y : B) :
  (m ≫= f) = Ok y → ∃ x, m = Ok x ∧ f x = Ok y.
Proof. destruct m as [x|]; [eauto|discriminate]. Qed.

Lemma and_then_true_inv (c k : result bool) :
  c &&& k = Ok true → c = Ok true ∧ k = Ok true.
Proof. by destruct c as [[]|]. Qed.

Lemma or_else_true_inv (c k : result bool) :
  c ||| k = Ok true → c = Ok true ∨ (c = Ok false ∧ k = Ok true).
Proof. destruct c as [[]|]; [by left|by right|discriminate]. Qed.

Lemma get_Ok_inv (v : value) (k : string) (w : value) :
  get v k = Ok w → present v = true ∧ w = fieldv v k.
Proof. destruct v; try discriminate; by intros [= <-]. Qed.

Lemma get2_Ok_inv (r : NodeRef) (k1 k2 : string) (w : value) :
  get2 (VRef r) k1 k2 = Ok w →
  present (field r k1) = true ∧ w = fieldv (field r k1) k2.
Proof. unfold get2. rewrite get_ref, bind_Ok. apply get_Ok_inv. Qed.

Lemma get3_Ok_inv (r : NodeRef) (k1 k2 k3 : string) (w : value) :
  get3 (VRef r) k1 k2 k3 = Ok w →
  present (field r k1) = true
  ∧ present (fieldv (field r k1) k2) = true
  ∧ w = fieldv (fieldv (field r k1) k2) k3.
Proof.
  unfold get3. rewrite get_ref, bind_Ok.
  intros (x & [Hp ->]%get_Ok_inv & [Hq ->]%get_Ok_inv)%bind_inv. done.
Qed.

Lemma the_moduleInfo_inv (st : tracker) (mi : ModuleInfo) :
  the_moduleInfo st = Ok mi → moduleInfo st = Some mi.
Proof. unfold the_moduleInfo. destruct (moduleInfo st); [congruence|discriminate]. Qed.

Lemma disqualifier_function_type (ty : string) :
  ty ∈ moduleScopeDisqualifiers ↔ function_type ty.
Proof.
  unfold moduleScopeDisqualifiers, function_type.
  rewrite !elem_of_union, !elem_of_singleton. tauto.
Qed.

End Inversion.

(** Take apart a callback that has returned: every read it made found
    its object, and every test it made went one way or the other. *)
Ltac js_facts :=
  repeat match goal with
         | E : (_ &&& _) = Ok true |- _ => apply and_then_true_inv in E as [? ?]
         | E : (_ ||| _) = Ok true |- _ => apply or_else_true_inv in E as [?|[? ?]]
         | E : get2 (VRef _) _ _ = Ok _ |- _ => apply get2_Ok_inv in E as [? ?]
         | E : get3 (VRef _) _ _ _ = Ok _ |- _ => apply get3_Ok_inv in E as (? & ? & ?)
         | E : get (VRef _) _ = Ok _ |- _ => rewrite get_ref in E
         | E : the_moduleInfo _ = Ok _ |- _ => apply the_moduleInfo_inv in E
         | E : (_ ≫= _) = Ok _ |- _ => apply bind_inv in E as (? & ? & ?)
         | E : Ok _ = Ok _ |- _ => injection E as E
         | E : Throw _ = Ok _ |- _ => discriminate E
         | E : (if ?b then _ else _) = Ok _ |- _ => destruct b eqn:?
         | E : negb _ = true |- _ => apply negb_true_iff in E
         | E : negb _ = false |- _ => apply negb_false_iff in E
         | E : (_ === _) = true |- _ => apply strict_eq_true in E
         | E : (_ === _) = false |- _ => apply strict_eq_false in E
         end;
  subst.

Section ModuleScopeFacts.
Context `{Host}.

(** X1. [inModuleScope] answers true exactly when none of the ancestors
    handed over by the rule context is a function declaration, a function
    expression or an arrow function. *)
Theorem inModuleScope_iff (node : NodeRef) :
  inModuleScope node = true
  ↔ ∀ a ty, a ∈ getAncestors node → field a "type" = VStr ty → ¬ function_type ty.
Proof.
  unfold inModuleScope. induction (getAncestors node) as [|b l IH]; cbn.
  - split; [|done]. intros _ a ty Hin. by apply elem_of_nil in Hin.
  - destruct (set_has moduleScopeDisqualifiers (field b "type")) eqn:Hb.
    + split; [done|]. intros Hall.
      apply set_has_true in Hb as (ty & Hty & Hin).
      destruct (Hall b ty); [by left|done|by apply disqualifier_function_type].
    + rewrite IH. split.
      * intros Hall a ty [->|Hin]%elem_of_cons Hty; [|by eapply Hall].
        intros Hf%disqualifier_function_type.
        rewrite Hty, set_has_str in Hb. by apply bool_decide_eq_false in Hb.
      * intros Hall a ty Hin. apply Hall. by right.
Qed.

End ModuleScopeFacts.
Section ReferenceRuleFacts.
Context `{Host}.
Variable forbiddenGlobalNames : gset string.
Variable messageIds : list string.

(** X2. A member access that is not nested in another member access and
    whose object is a forbidden global identifier other than [globalThis],
    as in [document.addEventListener()], is reported exactly once with the
    first message kind and the object's name, whether or not the access
    is null-safe and whatever its property is. *)
Theorem access_on_forbidden_global_reported
    (st : tracker) (node parent object : NodeRef) (x : string) :
  field node "parent" = VRef parent →
  field parent "type" ≠ VStr "MemberExpression" →
  field node "object" = VRef object →
  field object "type" = VStr "Identifier" →
  field object "name" = VStr x →
  x ∈ forbiddenGlobalNames →
  x ≠ "globalThis" →
  isGlobalIdentifier object (getScope node) = true →
  isInsideReachableMethod st || isInsideReachableFunction st || inModuleScope node = true →
  isInsideSkippedBlock st = false →
  noReferenceDuringSSR.MemberExpression forbiddenGlobalNames messageIds st node
  = Ok [ {| messageId := at_ messageIds 0;
            reported := node;
            data_identifier := VStr x;
            data_property := None |} ].
Proof.
  intros Hp Hpt Ho Hot Hon Hx Hng Hg Hreach Hskip.
  unfold noReferenceDuringSSR.MemberExpression.
  rewrite (notReachable_false st node Hreach Hskip).
  apply strict_eq_false in Hpt.
  assert (String.eqb x "globalThis" = false) as Hneq by by apply String.eqb_neq.
  js_simpl. rewrite Hpt. js_simpl.
  rewrite set_has_str, (bool_decide_eq_true_2 _ Hx). js_simpl.
  rewrite Hg. js_simpl. rewrite Hneq. js_simpl. reflexivity.
Qed.

(** X3. A member access directly on [globalThis] that is not nested in
    another member access, with [globalThis] itself not in the forbidden
    set: [globalThis.addEventListener()] is reported once with the first
    message kind, carrying the name of the property that is accessed;
    the null-safe [globalThis?.addEventListener()] is not reported. *)
Theorem access_on_globalThis
    (st : tracker) (node parent object property : NodeRef) :
  field node "parent" = VRef parent →
  field parent "type" ≠ VStr "MemberExpression" →
  field node "object" = VRef object →
  field object "type" = VStr "Identifier" →
  field object "name" = VStr "globalThis" →
  field node "property" = VRef property →
  "globalThis" ∉ forbiddenGlobalNames →
  isGlobalIdentifier object (getScope node) = true →
  isInsideReachableMethod st || isInsideReachableFunction st || inModuleScope node = true →
  isInsideSkippedBlock st = false →
  noReferenceDuringSSR.MemberExpression forbiddenGlobalNames messageIds st node
  = Ok (if field node "optional" === VBool true
        then []
        else [ {| messageId := at_ messageIds 0;
                  reported := node;
                  data_identifier := field property "name";
                  data_property := None |} ]).
Proof.
  intros Hp Hpt Ho Hot Hon Hpr Hng Hg Hreach Hskip.
  unfold noReferenceDuringSSR.MemberExpression.
  rewrite (notReachable_false st node Hreach Hskip).
  apply strict_eq_false in Hpt.
  js_simpl. rewrite Hpt. js_simpl.
  rewrite set_has_str, (bool_decide_eq_false_2 _ Hng). js_simpl.
  destruct (field node "optional" === VBool true); js_simpl; [reflexivity|].
  rewrite Hg. js_simpl. reflexivity.
Qed.

(** X4. Whatever the member-access callback of [noReferenceDuringSSR]
    reports, it reports once, for the node itself, from a position that
    is reachable and not skipped, and only when the object of the access
    is an identifier that resolves to the global binding and is named
    [globalThis] or by a forbidden name. *)
Theorem member_report_sound (st : tracker) (node : NodeRef) (out : list report) :
  noReferenceDuringSSR.MemberExpression forbiddenGlobalNames messageIds st node = Ok out →
  out ≠ [] →
  notReachable st node = false
  ∧ (∃ r, out = [r] ∧ reported r = node)
  ∧ ∃ object name,
      field node "object" = VRef object
      ∧ field object "type" = VStr "Identifier"
      ∧ field object "name" = VStr name
      ∧ (name = "globalThis" ∨ name ∈ forbiddenGlobalNames)
      ∧ isGlobalIdentifier object (getScope node) = true.
Proof.
  unfold noReferenceDuringSSR.MemberExpression. intros Hrun Hout.
  destruct (notReachable st node); [by simplify_eq|].
  split; [reflexivity|].
  apply bind_inv in Hrun as ([] & HB & Hrun);
    [|apply bind_inv in Hrun as ([] & HA & Hrun); [|by simplify_eq]].
  all: js_facts; (split; [by eauto|]).
  all: match goal with
       | E : fieldv (field _ "object") "type" = VStr "Identifier" |- _ =>
           apply fieldv_VStr in E as (object & Ho & Hot)
       end.
  all: rewrite Ho in *; cbn [fieldv] in *.
  all: try match goal with
           | E : set_has _ _ = true |- _ =>
               apply set_has_true in E as (x & Hx & Hin)
           end.
  all: eexists _, _; repeat split; eauto.
Qed.

(** X5. The identifier callback of [noReferenceDuringSSR] reports exactly
    when the position is reachable and not skipped, the parent of the
    identifier is not a member access, its name is forbidden and it
    resolves to the global binding; the report is then of the first
    message kind and carries the name. *)
Theorem identifier_reported_iff (st : tracker) (node : NodeRef) (out : list report) :
  noReferenceDuringSSR.Identifier forbiddenGlobalNames messageIds st node = Ok out →
  (out ≠ []
   ↔ notReachable st node = false
     ∧ fieldv (field node "parent") "type" ≠ VStr "MemberExpression"
     ∧ (∃ x, field node "name" = VStr x ∧ x ∈ forbiddenGlobalNames)
     ∧ isGlobalIdentifier node (getScope node) = true)
  ∧ (out = []
     ∨ out = [ {| messageId := at_ messageIds 0;
                  reported := node;
                  data_identifier := field node "name";
                  data_property := None |} ]).
Proof.
  unfold noReferenceDuringSSR.Identifier. intros Hrun.
  destruct (notReachable st node).
  { simplify_eq. split; [|by left]. split; [done|]. by intros [[=] _]. }
  apply bind_inv in Hrun as ([] & HA & Hrun).
  - js_facts. split; [|by right]. split; [|done]. intros _.
    repeat split; try done. by apply set_has_true.
  - simplify_eq. split; [|by left]. split; [done|].
    intros (_ & Hpt & (x & Hx & Hin) & Hg). exfalso.
    apply strict_eq_false in Hpt.
    unfold get2 in HA. rewrite !get_ref, !bind_Ok in HA.
    destruct (get (field node "parent") "type") as [ty|] eqn:Hty;
      [|discriminate].
    apply get_Ok_inv in Hty as [_ ->].
    rewrite bind_Ok, Hpt, Hx, set_has_str, (bool_decide_eq_true_2 _ Hin), Hg in HA.
    discriminate.
Qed.

End ReferenceRuleFacts.
Section OtherRuleFacts.
Context `{Host}.

(** X6. The callback of [noNodeEnvInSSR] reports exactly when the position
    is reachable and not skipped and the access has the shape
    [process.env.NODE_ENV], with all three names written as identifiers;
    it then reports once, with message [nodeEnvFound]. *)
Theorem node_env_reported_iff (st : tracker) (node : NodeRef) (out : list report) :
  noNodeEnvInSSR.MemberExpression st node = Ok out →
  (out ≠ []
   ↔ notReachable st node = false
     ∧ ∃ property object base env,
         field node "property" = VRef property
         ∧ field property "type" = VStr "Identifier"
         ∧ field property "name" = VStr "NODE_ENV"
         ∧ field node "object" = VRef object
         ∧ field object "type" = VStr "MemberExpression"
         ∧ field object "object" = VRef base
         ∧ field base "type" = VStr "Identifier"
         ∧ field base "name" = VStr "process"
         ∧ field object "property" = VRef env
         ∧ field env "type" = VStr "Identifier"
         ∧ field env "name" = VStr "env")
  ∧ (out = []
     ∨ out = [ {| messageId := VStr "nodeEnvFound";
                  reported := node;
                  data_identifier := VStr "NODE_ENV";
                  data_property := None |} ]).
Proof.
  unfold noNodeEnvInSSR.MemberExpression. intros Hrun.
  destruct (notReachable st node).
  { simplify_eq. split; [|by left]. split; [done|]. by intros [[=] _]. }
  apply bind_inv in Hrun as ([] & HC & Hrun).
  - js_facts.
    repeat match goal with
           | E : fieldv (field _ _) _ = VStr _ |- _ =>
               let r := fresh "r" in
               let Er := fresh "Er" in
               apply fieldv_VStr in E as (r & Er & E);
               rewrite Er in *; cbn [fieldv] in *
           end.
    repeat match goal with
           | E : fieldv (field _ _) _ = VStr _ |- _ =>
               let r := fresh "r" in
               let Er := fresh "Er" in
               apply fieldv_VStr in E as (r & Er & E);
               rewrite Er in *; cbn [fieldv] in *
           end.
    match goal with E : field _ "name" = VStr "NODE_ENV" |- _ => rewrite E end.
    split; [|by right]. split; [|done]. intros _. split; [done|].
    eexists _, _, _, _. repeat split; eauto.
  - simplify_eq. split; [|by left]. split; [done|].
    intros (_ & property & object & base & env & Hp & Hpt & Hpn & Ho & Hot
            & Hoo & Hbt & Hbn & Hop & Het & Hen). exfalso.
    js_simpl_in HC. cbn [truthy] in HC. js_simpl_in HC. discriminate.
Qed.

(** What the callback of [noPropertyAccessDuringSSR] requires before it
    passes a node on. *)
Lemma this_report_inv (forbiddenPropertyNames : list string)
    (st : tracker) (node n : NodeRef) (out : list NodeRef) :
  noPropertyAccessDuringSSR.MemberExpression forbiddenPropertyNames st node = Ok out →
  n ∈ out →
  n = node
  ∧ isInsideReachableMethod st = true
  ∧ isInsideSkippedBlock st = false
  ∧ fieldv (field node "object") "type" = VStr "ThisExpression".
Proof.
  unfold noPropertyAccessDuringSSR.MemberExpression. intros Hrun Hin.
  destruct (isInsideReachableMethod st); cbn [negb orb] in Hrun;
    [|simplify_eq; by apply elem_of_nil in Hin].
  destruct (isInsideSkippedBlock st);
    [simplify_eq; by apply elem_of_nil in Hin|].
  apply bind_inv in Hrun as ([] & HC & Hrun); simplify_eq;
    [|by apply elem_of_nil in Hin].
  apply list_elem_of_singleton in Hin. js_facts. done.
Qed.

End OtherRuleFacts.

Section TrackerFacts.
Context `{Host}.

(** X7. With the module information in place, entering a method
    definition records the node in the reachable-method slot exactly when
    the walk is inside the component class and the key is an identifier
    named in [methodsReachableDuringSSR]; a match replaces whatever method
    was recorded before.  Leaving any method definition empties the slot,
    so from then on the walk no longer counts as inside a reachable
    method, also when the method that was left is a nested one. *)
Theorem reachable_method_slot
    (st : tracker) (node key : NodeRef) (mi : ModuleInfo) :
  moduleInfo st = Some mi →
  field node "key" = VRef key →
  let matching :=
    insideLWC st
    && match identifier_name (VRef key) with
       | Some x => bool_decide (x ∈ methodsReachableDuringSSR mi)
       | None => false
       end in
  withinLWCVisitors.MethodDefinition st node
  = Ok (if matching then set_reachableMethod (Some node) st else st)
  ∧ ∀ left, ∃ st',
      withinLWCVisitors.MethodDefinition_exit st left = Ok st'
      ∧ reachableMethodThatWeAreIn st' = None
      ∧ isInsideReachableMethod st' = false.
Proof.
  intros Hmi Hkey matching. subst matching. split.
  - unfold withinLWCVisitors.MethodDefinition, the_moduleInfo. rewrite Hmi.
    destruct (insideLWC st); [|reflexivity]. js_simpl.
    destruct (field key "type" === VStr "Identifier") eqn:Ht.
    + apply strict_eq_true in Ht. js_simpl.
      rewrite (set_has_identifier_name _ key Ht). reflexivity.
    + js_simpl. rewrite identifier_name_other; [reflexivity|].
      intros r [= <-]. by apply strict_eq_false.
  - intros left. eexists. split; [reflexivity|]. split; [reflexivity|].
    unfold isInsideReachableMethod. cbn. apply andb_false_r.
Qed.

(** X8. Until the [Program] callback has stored the module information,
    the class callbacks throw on every node, and the function-declaration
    callback throws exactly when no reachable function is recorded and
    the declaration is named by an identifier. *)
Theorem callbacks_need_Program (st : tracker) (node : NodeRef) :
  moduleInfo st = None →
  withinLWCVisitors.ClassDeclaration st node = Throw TypeError
  ∧ withinLWCVisitors.ClassDeclaration_exit st node = Throw TypeError
  ∧ (withinLWCVisitors.FunctionDeclaration st node = Throw TypeError
     ↔ reachableFunctionThatWeAreIn st = None
       ∧ ∃ id, field node "id" = VRef id ∧ field id "type" = VStr "Identifier").
Proof.
  intros Hmi.
  unfold withinLWCVisitors.ClassDeclaration, withinLWCVisitors.ClassDeclaration_exit,
    withinLWCVisitors.FunctionDeclaration, the_moduleInfo.
  rewrite Hmi. split; [reflexivity|]. split; [reflexivity|].
  destruct (reachableFunctionThatWeAreIn st) as [f|].
  { split; [discriminate|]. by intros [[=] _]. }
  rewrite bool_decide_eq_false_2 by (by intros [? ?]). js_simpl.
  destruct (field node "id") as [| |b|z|s|id] eqn:Hid; cbn [truthy]; js_simpl;
    try (split; [discriminate|]; by intros (_ & ? & [=] & _)).
  - destruct b; js_simpl; cbn [get]; js_simpl;
      (split; [discriminate|]; by intros (_ & ? & [=] & _)).
  - destruct (negb (z =? 0)%Z); js_simpl; cbn [get]; js_simpl;
      (split; [discriminate|]; by intros (_ & ? & [=] & _)).
  - destruct (negb (String.eqb s EmptyString)); js_simpl; cbn [get]; js_simpl;
      (split; [discriminate|]; by intros (_ & ? & [=] & _)).
  - destruct (field id "type" === VStr "Identifier") eqn:Ht; js_simpl.
    + apply strict_eq_true in Ht. split; [|done]. intros _. split; [done|]. eauto.
    + apply strict_eq_false in Ht. split; [discriminate|].
      intros (_ & id' & [= <-] & Ht'). done.
Qed.

End TrackerFacts.
Section WalkFacts.
Context `{Host}.

Lemma tracker_step_function_kept (st st' : tracker) (ev : event) (f : NodeRef) :
  tracker_step st ev = Ok st' →
  reachableFunctionThatWeAreIn st = Some f →
  ev ≠ Exit f →
  reachableFunctionThatWeAreIn st' = Some f.
Proof.
  intros Hstep Hf Hev. destruct ev as [m|m]; cbn [tracker_step] in Hstep.
  - destruct (field m "type") as [| | | |ty|]; try by simplify_eq.
    destruct (tracker_enter_slots ty st st' m Hstep) as (HF & _).
    destruct HF as [->|[_ Hty]]; [done|].
    revert Hstep. unfold tracker_enter, function_type in *. dispatch ty;
      try (exfalso; destruct Hty as [?|[?|?]]; congruence);
      unfold withinLWCVisitors.FunctionDeclaration,
        withinLWCVisitors.FunctionExpression,
        withinLWCVisitors.ArrowFunctionExpression;
      rewrite Hf, (bool_decide_eq_true_2 (is_Some (Some f))) by eauto;
      cbn [negb]; rewrite !and_then_false, bind_Ok; by intros [= <-].
  - destruct (field m "type") as [| | | |ty|]; try by simplify_eq.
    revert Hstep. unfold tracker_exit. dispatch ty.
    + unfold withinLWCVisitors.ClassDeclaration_exit.
      destruct (the_moduleInfo st); [|discriminate]. cbn.
      intros [= <-]. by case_bool_decide.
    + unfold withinLWCVisitors.FunctionDeclaration_exit. intros [= <-].
      case_bool_decide; [congruence|done].
    + unfold withinLWCVisitors.FunctionExpression_exit. intros [= <-].
      case_bool_decide; [congruence|done].
    + unfold withinLWCVisitors.ArrowFunctionExpression_exit. intros [= <-].
      case_bool_decide; [congruence|done].
    + by intros [= <-].
    + unfold withinLWCVisitors.IfStatement_exit. intros [= <-].
      by case_bool_decide.
    + by intros [= <-].
Qed.

(** X9. Once a function is recorded in the reachable-function slot it
    stays there until that very function is left: whatever is entered and
    left in between, nested functions included, the slot keeps the
    function and the walk counts as inside a reachable function. *)
Theorem reachable_function_persists
    (st st' : tracker) (mid : list event) (f : NodeRef) :
  reachableFunctionThatWeAreIn st = Some f →
  Exit f ∉ mid →
  run tracker_step st mid = Ok st' →
  reachableFunctionThatWeAreIn st' = Some f
  ∧ isInsideReachableFunction st' = true.
Proof.
  revert st. induction mid as [|ev mid IH]; intros st Hf Hmid Hrun; cbn [run] in Hrun.
  - simplify_eq. split; [done|]. unfold isInsideReachableFunction.
    rewrite Hf. by apply bool_decide_eq_true_2.
  - apply bind_inv in Hrun as (st1 & Hstep & Hrun).
    apply (IH st1); [|by intros ?; apply Hmid; right|done].
    eapply tracker_step_function_kept; [done..|].
    intros ->. apply Hmid. by left.
Qed.

Lemma tracker_step_guard_kept (st st' : tracker) (ev : event) (g : NodeRef) :
  tracker_step st ev = Ok st' →
  skippedBlockThatWeAreIn st = Some g →
  isSSREscape g = true →
  guard_exit ev = false →
  ∃ g', skippedBlockThatWeAreIn st' = Some g' ∧ isSSREscape g' = true.
Proof.
  intros Hstep Hg Hesc Hev. destruct ev as [m|m]; cbn [tracker_step] in Hstep.
  - destruct (field m "type") as [| | | |ty|]; try (simplify_eq; by eauto).
    destruct (tracker_enter_slots ty st st' m Hstep) as (_ & _ & HS).
    destruct HS as [->|[HS ->]]; [by eauto|].
    exists m. split; [done|].
    revert Hstep HS. unfold tracker_enter. cbn [String.eqb Ascii.eqb Bool.eqb].
    unfold withinLWCVisitors.IfStatement. intros [= <-].
    destruct (isSSREscape m) eqn:Hm; [done|]. intros HS. congruence.
  - cbn [guard_exit] in Hev.
    destruct (field m "type") as [| | | |ty|] eqn:Hty; try (simplify_eq; by eauto).
    destruct (tracker_exit_slots ty st st' m Hstep) as (_ & _ & HS).
    revert Hstep. unfold tracker_exit. dispatch ty.
    + unfold withinLWCVisitors.ClassDeclaration_exit.
      destruct (the_moduleInfo st); [|discriminate]. cbn.
      intros [= <-]. case_bool_decide; by eauto.
    + unfold withinLWCVisitors.FunctionDeclaration_exit. intros [= <-].
      case_bool_decide; by eauto.
    + unfold withinLWCVisitors.FunctionExpression_exit. intros [= <-].
      case_bool_decide; by eauto.
    + unfold withinLWCVisitors.ArrowFunctionExpression_exit. intros [= <-].
      case_bool_decide; by eauto.
    + intros [= <-]. by eauto.
    + subst ty. rewrite strict_eq_refl in Hev. cbn [andb] in Hev.
      unfold withinLWCVisitors.IfStatement_exit. intros [= <-].
      case_bool_decide; [congruence|by eauto].
    + intros [= <-]. by eauto.
Qed.

(** X10. From the moment a recognised escape guard is recorded, and for as
    long as no recognised escape guard is left, the walk stays inside a
    skipped block, and none of the rules reports anything there. *)
Theorem skipped_block_persists
    (forbiddenGlobalNames : gset string) (messageIds : list string)
    (forbiddenPropertyNames : list string)
    (st st' : tracker) (mid : list event) (g node : NodeRef) :
  skippedBlockThatWeAreIn st = Some g →
  isSSREscape g = true →
  no_guard_left mid = true →
  run tracker_step st mid = Ok st' →
  isInsideSkippedBlock st' = true
  ∧ noReferenceDuringSSR.MemberExpression forbiddenGlobalNames messageIds st' node = Ok []
  ∧ noReferenceDuringSSR.Identifier forbiddenGlobalNames messageIds st' node = Ok []
  ∧ noPropertyAccessDuringSSR.MemberExpression forbiddenPropertyNames st' node = Ok []
  ∧ noNodeEnvInSSR.MemberExpression st' node = Ok [].
Proof.
  intros Hg Hesc Hmid Hrun.
  assert (isInsideSkippedBlock st' = true) as Hskip.
  { revert st g Hg Hesc Hrun.
    induction mid as [|ev mid IH]; intros st g Hg Hesc Hrun; cbn [run] in Hrun.
    - simplify_eq. unfold isInsideSkippedBlock. rewrite Hg.
      by apply bool_decide_eq_true_2.
    - apply bind_inv in Hrun as (st1 & Hstep & Hrun).
      cbn [no_guard_left forallb] in Hmid.
      apply andb_true_iff in Hmid as [Hev%negb_true_iff Hmid].
      destruct (tracker_step_guard_kept st st1 ev g Hstep Hg Hesc Hev)
        as (g' & Hg' & Hesc').
      by apply (IH Hmid st1 g'). }
  split; [done|].
  by apply silent_in_skipped_block.
Qed.

Lemma tracker_step_method_kept (st st' : tracker) (ev : event) :
  tracker_step st ev = Ok st' →
  isInsideReachableMethod st = true →
  method_or_class_exit ev = false →
  isInsideReachableMethod st' = true.
Proof.
  unfold isInsideReachableMethod.
  intros Hstep [Hin [m Hm]%bool_decide_eq_true]%andb_true_iff Hev.
  destruct ev as [n|n]; cbn [tracker_step] in Hstep.
  - destruct (field n "type") as [| | | |ty|];
      try (simplify_eq; by rewrite Hin, Hm).
    revert Hstep. unfold tracker_enter. dispatch ty.
    + unfold withinLWCVisitors.Program. intros [= <-]. cbn. by rewrite Hin, Hm.
    + unfold withinLWCVisitors.ClassDeclaration.
      destruct (the_moduleInfo st); [|discriminate]. cbn. intros [= <-].
      case_bool_decide; cbn; by rewrite ?Hin, Hm.
    + intros [-> | ->]%bind_choice; cbn; by rewrite Hin, Hm.
    + intros [-> | ->]%bind_choice; cbn; by rewrite Hin, Hm.
    + intros [-> | ->]%bind_choice; cbn; by rewrite Hin, Hm.
    + intros [-> | ->]%bind_choice; cbn; by rewrite Hin, ?Hm.
    + unfold withinLWCVisitors.IfStatement. intros [= <-].
      destruct (isSSREscape n); cbn; by rewrite Hin, Hm.
    + intros [= <-]. by rewrite Hin, Hm.
  - cbn [method_or_class_exit] in Hev.
    destruct (field n "type") as [| | | |ty|];
      try (simplify_eq; by rewrite Hin, Hm).
    rewrite !strict_eq_str in Hev. apply orb_false_iff in Hev as [Hnm Hnc].
    revert Hstep. unfold tracker_exit. rewrite Hnm, Hnc. dispatch ty.
    + unfold withinLWCVisitors.FunctionDeclaration_exit. intros [= <-].
      case_bool_decide; cbn; by rewrite Hin, Hm.
    + unfold withinLWCVisitors.FunctionExpression_exit. intros [= <-].
      case_bool_decide; cbn; by rewrite Hin, Hm.
    + unfold withinLWCVisitors.ArrowFunctionExpression_exit. intros [= <-].
      case_bool_decide; cbn; by rewrite Hin, Hm.
    + unfold withinLWCVisitors.IfStatement_exit. intros [= <-].
      case_bool_decide; cbn; by rewrite Hin, Hm.
    + intros [= <-]. by rewrite Hin, Hm.
Qed.

(** X14. Inside a reachable method, and for as long as no method
    definition and no class declaration is left, the walk keeps counting
    as inside a reachable method. *)
Theorem reachable_method_persists (st st' : tracker) (mid : list event) :
  isInsideReachableMethod st = true →
  no_method_or_class_left mid = true →
  run tracker_step st mid = Ok st' →
  isInsideReachableMethod st' = true.
Proof.
  revert st. induction mid as [|ev mid IH]; intros st Hin Hmid Hrun; cbn [run] in Hrun.
  - by simplify_eq.
  - apply bind_inv in Hrun as (st1 & Hstep & Hrun).
    cbn [no_method_or_class_left forallb] in Hmid.
    apply andb_true_iff in Hmid as [Hev%negb_true_iff Hmid].
    apply (IH st1); [|done..].
    by eapply tracker_step_method_kept.
Qed.

End WalkFacts.
Section ClassFacts.
Context `{Host}.

Lemma tracker_enter_class (ty : string) (st st' : tracker) (node : NodeRef) :
  tracker_enter ty st node = Ok st' →
  (ty = "Program" ∧ st' = set_moduleInfo (analyze node) st)
  ∨ (ty = "ClassDeclaration"
     ∧ moduleInfo st' = moduleInfo st
     ∧ ∃ mi, moduleInfo st = Some mi ∧ lwcClassDeclaration mi = Some node)
  ∨ (moduleInfo st' = moduleInfo st ∧ insideLWC st' = insideLWC st).
Proof.
  unfold tracker_enter. dispatch ty.
  - unfold withinLWCVisitors.Program. intros [= <-]. by left.
  - unfold withinLWCVisitors.ClassDeclaration.
    destruct (the_moduleInfo st) as [mi|] eqn:Hmi; [|discriminate].
    apply the_moduleInfo_inv in Hmi. cbn. intros [= <-]. right.
    case_bool_decide; [left|right]; by eauto.
  - intros [-> | ->]%bind_choice; by auto.
  - intros [-> | ->]%bind_choice; by auto.
  - intros [-> | ->]%bind_choice; by auto.
  - intros [-> | ->]%bind_choice; by auto.
  - unfold withinLWCVisitors.IfStatement. intros [= <-].
    destruct (isSSREscape node); by auto.
  - intros [= <-]. by auto.
Qed.

Lemma tracker_exit_class (ty : string) (st st' : tracker) (node : NodeRef) :
  tracker_exit ty st node = Ok st' →
  moduleInfo st' = moduleInfo st
  ∧ (insideLWC st' = false
     ∨ (insideLWC st' = insideLWC st
        ∧ ∀ mi, ty = "ClassDeclaration" → moduleInfo st = Some mi →
                lwcClassDeclaration mi ≠ Some node)).
Proof.
  unfold tracker_exit. dispatch ty.
  - unfold withinLWCVisitors.ClassDeclaration_exit.
    destruct (the_moduleInfo st) as [mi|] eqn:Hmi; [|discriminate].
    apply the_moduleInfo_inv in Hmi. cbn. intros [= <-].
    case_bool_decide; (split; [done|]); [by left|right].
    split; [done|]. intros mi' _ Hmi'. congruence.
  - unfold withinLWCVisitors.FunctionDeclaration_exit. intros [= <-].
    case_bool_decide; (split; [done|]); right; (split; [done|]); congruence.
  - unfold withinLWCVisitors.FunctionExpression_exit. intros [= <-].
    case_bool_decide; (split; [done|]); right; (split; [done|]); congruence.
  - unfold withinLWCVisitors.ArrowFunctionExpression_exit. intros [= <-].
    case_bool_decide; (split; [done|]); right; (split; [done|]); congruence.
  - intros [= <-]. split; [done|]. right. split; [done|]. congruence.
  - unfold withinLWCVisitors.IfStatement_exit. intros [= <-].
    case_bool_decide; (split; [done|]); right; (split; [done|]); congruence.
  - intros [= <-]. split; [done|]. right. split; [done|]. congruence.
Qed.

Lemma class_contained_step (r : NodeRef) (pre : list event)
    (st st' : tracker) (ev : event) :
  class_contained r pre st →
  (∀ m, ev = Enter m → Exit m ∉ pre) →
  (∀ m, ev = Enter m → field m "type" = VStr "Program" → m = r) →
  tracker_step st ev = Ok st' →
  class_contained r (pre ++ [ev]) st'.
Proof.
  intros [Hmi Hin] Hfresh Hprog Hstep.
  assert (∀ c, open_in pre c → ev ≠ Exit c → open_in (pre ++ [ev]) c) as Hkeep.
  { intros c [Hen Hex] Hne. split; [apply elem_of_app; by left|].
    intros [?|E%list_elem_of_singleton]%elem_of_app; [done|congruence]. }
  destruct ev as [m|m]; cbn [tracker_step] in Hstep.
  - assert (∀ c, open_in pre c → open_in (pre ++ [Enter m]) c) as Hkeep'.
    { intros c Hc. by apply Hkeep. }
    destruct (field m "type") as [| | | |ty|] eqn:Hty.
    1-4, 6: simplify_eq; (split; [done|]); intros Hl;
      destruct (Hin Hl) as (? & c & ? & ? & ?); (split; [done|]);
      exists c; by auto.
    destruct (tracker_enter_class ty st st' m Hstep)
      as [[-> ->]|[(-> & Hsame & mi & Hst & Hlwc)|[Hsame Hsame']]].
    + assert (m = r) as -> by by apply Hprog.
      split; [right; reflexivity|].
      cbn. intros Hl. destruct (Hin Hl) as (? & c & ? & ? & ?).
      split; [done|]. exists c. by auto.
    + split; [by rewrite Hsame|]. intros _.
      destruct Hmi as [Hmi|Hmi]; [congruence|].
      split; [congruence|].
      exists m. split; [congruence|]. split; [|done].
      split; [apply elem_of_app; right; by left|].
      intros [?|[=]%list_elem_of_singleton]%elem_of_app. by apply (Hfresh m).
    + split; [by rewrite Hsame|]. rewrite Hsame, Hsame'. intros Hl.
      destruct (Hin Hl) as (? & c & ? & ? & ?).
      split; [done|]. exists c. by auto.
  - destruct (field m "type") as [| | | |ty|] eqn:Hty.
    1-4, 6: simplify_eq; (split; [done|]); intros Hl;
      destruct (Hin Hl) as (? & c & ? & ? & Hc); (split; [done|]); exists c;
      (split; [done|]); (split; [|done]); apply Hkeep; [done|];
      intros [= <-]; congruence.
    destruct (tracker_exit_class ty st st' m Hstep) as [Hsame [Hoff|[Hsame' Hne]]].
    + split; [by rewrite Hsame|]. congruence.
    + split; [by rewrite Hsame|]. rewrite Hsame, Hsame'. intros Hl.
      destruct (Hin Hl) as (Hinfo & c & Hlwc & Hopen & Hc).
      split; [done|]. exists c.
      split; [done|]. split; [|done]. apply Hkeep; [done|].
      intros [= <-]. eapply (Hne (analyze r)); [congruence|done|done].
Qed.

Lemma single_program_root (t : tree) (m : NodeRef) :
  single_program t = true →
  m ∈ nodes t →
  field m "type" = VStr "Program" →
  m = root t.
Proof.
  unfold single_program. rewrite forallb_forall.
  intros Hall Hin%list_elem_of_In Hty. specialize (Hall m Hin).
  rewrite Hty, strict_eq_refl in Hall. by apply Nat.eqb_eq in Hall.
Qed.

(** X11. Along every traversal of a tree of distinct nodes whose only
    [Program] node is its root, whenever the tracker holds that the walk
    is inside the component class, the class the analyzer named for the
    root has been entered and has not been left. *)
Theorem insideLWC_contained
    (t : tree) (pre post : list event) (st : tracker) :
  NoDup (nodes t) →
  single_program t = true →
  events t = pre ++ post →
  run tracker_step reachableDuringSSRPartial pre = Ok st →
  insideLWC st = true →
  ∃ c, lwcClassDeclaration (analyze (root t)) = Some c ∧ open_in pre c.
Proof.
  intros Hnodup Hsingle Hevents Hrun Hin.
  assert (class_contained (root t) pre st) as [_ Hclass].
  { pose proof (ordered_events t Hnodup) as Hord.
    clear Hin. revert st post Hevents Hrun.
    induction pre as [|ev pre IH] using rev_ind; intros st post Hevents Hrun.
    - cbn in Hrun. simplify_eq. split; [by left|]. discriminate.
    - rewrite run_snoc in Hrun.
      apply bind_inv in Hrun as (st0 & Hrun0 & Hstep).
      rewrite <- app_assoc in Hevents.
      eapply class_contained_step; [by eapply IH| | |exact Hstep].
      + intros m -> Hex. apply list_elem_of_lookup in Hex as [j Hj].
        assert (length pre < j); [|apply lookup_lt_Some in Hj; lia].
        apply (Hord _ _ m); rewrite Hevents.
        * by rewrite lookup_app_r, Nat.sub_diag by lia.
        * rewrite lookup_app_l by (by eapply lookup_lt_Some). done.
      + intros m -> Hty. apply single_program_root; [done| |done].
        apply Enter_events_nodes. rewrite Hevents.
        apply elem_of_app. right. by left. }
  destruct (Hclass Hin) as (_ & c & ? & ? & _). by exists c.
Qed.

End ClassFacts.
Section Provenance.
Context `{Host}.

Lemma noReferenceDuringSSR_beside_tracker
    (forbiddenGlobalNames : gset string) (messageIds : list string) :
  beside_tracker (noReferenceDuringSSR_own forbiddenGlobalNames messageIds).
Proof.
  intros ty callback. unfold noReferenceDuringSSR_own. dispatch ty;
    intros [= <-] st node; subst; reflexivity.
Qed.

Lemma noPropertyAccessDuringSSR_beside_tracker (forbiddenPropertyNames : list string) :
  beside_tracker (noPropertyAccessDuringSSR_own forbiddenPropertyNames).
Proof.
  intros ty callback. unfold noPropertyAccessDuringSSR_own. dispatch ty;
    intros [= <-] st node; subst; reflexivity.
Qed.

Lemma noNodeEnvInSSR_beside_tracker : beside_tracker noNodeEnvInSSR_own.
Proof.
  intros ty callback. unfold noNodeEnvInSSR_own. dispatch ty;
    intros [= <-] st node; subst; reflexivity.
Qed.

(** Under a rule the tracker moves as it does alone, and every report
    comes from one of the rule's own callbacks, called on a node when it
    is entered, with the tracker as the events before have left it. *)
Lemma rule_run_provenance {R : Type}
    (own : string → option (tracker → NodeRef → result (list R)))
    (pre : list event) (st : tracker) (out : list R) :
  beside_tracker own →
  run (rule_step own) (reachableDuringSSRPartial, []) pre = Ok (st, out) →
  run tracker_step reachableDuringSSRPartial pre = Ok st
  ∧ ∀ r, r ∈ out →
      ∃ p1 p2 node ty callback st1 o,
        pre = p1 ++ Enter node :: p2
        ∧ run tracker_step reachableDuringSSRPartial p1 = Ok st1
        ∧ field node "type" = VStr ty
        ∧ own ty = Some callback
        ∧ callback st1 node = Ok o
        ∧ r ∈ o.
Proof.
  intros Hown. revert st out.
  induction pre as [|ev pre IH] using rev_ind; intros st out Hrun.
  - cbn in Hrun. simplify_eq. split; [done|]. intros r Hr.
    by apply elem_of_nil in Hr.
  - rewrite run_snoc in Hrun. apply bind_inv in Hrun as ([st0 out0] & Hrun0 & Hstep).
    destruct (IH st0 out0 Hrun0) as [Htr Hprov]. rewrite run_snoc, Htr, bind_Ok.
    assert (∀ r, r ∈ out0 →
              ∃ p1 p2 node ty callback st1 o,
                pre ++ [ev] = p1 ++ Enter node :: p2
                ∧ run tracker_step reachableDuringSSRPartial p1 = Ok st1
                ∧ field node "type" = VStr ty
                ∧ own ty = Some callback
                ∧ callback st1 node = Ok o
                ∧ r ∈ o) as Hold.
    { intros r Hr.
      destruct (Hprov r Hr) as (p1 & p2 & node & ty & cb & st1 & o & -> & ?).
      exists p1, (p2 ++ [ev]), node, ty, cb, st1, o.
      split; [by rewrite <- app_assoc|done]. }
    destruct ev as [node|node]; cbn [rule_step tracker_step fst snd] in Hstep |- *.
    + destruct (field node "type") as [| | | |ty|] eqn:Hty;
        try (simplify_eq; by split).
      destruct (own ty) as [callback|] eqn:Hcb.
      * apply bind_inv in Hstep as (o & Hcall & [= <- <-]).
        split; [by apply (Hown ty callback)|].
        intros r [Hr|Hr]%elem_of_app; [by apply Hold|].
        exists pre, [], node, ty, callback, st0, o. done.
      * apply bind_inv in Hstep as (st1 & Henter & [= <- <-]). by split.
    + apply bind_inv in Hstep as (st1 & Hexit & [= <- <-]). by split.
Qed.

Lemma open_prefix (t : tree) (p1 rest : list event) (st : tracker) :
  NoDup (nodes t) →
  events t = p1 ++ rest →
  run tracker_step reachableDuringSSRPartial p1 = Ok st →
  contained p1 st.
Proof.
  intros Hnodup Hevents Hrun.
  apply (contained_run (events t)); [by apply ordered_events|by exists rest|done].
Qed.

(** X12. Along every traversal of a tree of distinct nodes, every node
    that [noPropertyAccessDuringSSR] hands to the reporter is an access
    on [this] that lies inside a method definition: the method was entered
    before the access and had not been left when the access was visited. *)
Theorem this_reports_inside_method
    (forbiddenPropertyNames : list string)
    (t : tree) (pre post : list event) (st : tracker) (out : list NodeRef)
    (n : NodeRef) :
  NoDup (nodes t) →
  events t = pre ++ post →
  lint_noPropertyAccessDuringSSR forbiddenPropertyNames pre = Ok (st, out) →
  n ∈ out →
  ∃ p1 p2 m,
    pre = p1 ++ Enter n :: p2
    ∧ field n "type" = VStr "MemberExpression"
    ∧ fieldv (field n "object") "type" = VStr "ThisExpression"
    ∧ field m "type" = VStr "MethodDefinition"
    ∧ open_in p1 m.
Proof.
  intros Hnodup Hevents Hrun Hin.
  destruct (rule_run_provenance _ pre st out
              (noPropertyAccessDuringSSR_beside_tracker forbiddenPropertyNames) Hrun)
    as [_ Hprov].
  destruct (Hprov n Hin) as (p1 & p2 & node & ty & cb & st1 & o
                             & -> & Hrun1 & Hty & Hcb & Hcall & Ho).
  revert Hcb. unfold noPropertyAccessDuringSSR_own.
  destruct (String.eqb_spec ty "MemberExpression") as [->|]; [|discriminate].
  intros [= <-].
  destruct (this_report_inv _ _ _ _ _ Hcall Ho) as (-> & Hmethod & _ & Hthis).
  unfold isInsideReachableMethod in Hmethod.
  apply andb_true_iff in Hmethod as [_ [m Hm]%bool_decide_eq_true].
  rewrite <- app_assoc in Hevents.
  destruct (open_prefix t p1 _ st1 Hnodup Hevents Hrun1) as (_ & HM & _).
  destruct (HM m Hm) as (Hen & Hex & ty' & Hty' & ->).
  exists p1, p2, m. done.
Qed.

Lemma notReachable_false_inv (st : tracker) (node : NodeRef) :
  notReachable st node = false →
  isInsideSkippedBlock st = false
  ∧ (isInsideReachableMethod st = true
     ∨ isInsideReachableFunction st = true
     ∨ inModuleScope node = true).
Proof.
  unfold notReachable.
  destruct (isInsideSkippedBlock st), (isInsideReachableMethod st),
    (isInsideReachableFunction st), (inModuleScope node); cbn; intros; by auto.
Qed.

Lemma member_report_inv (forbiddenGlobalNames : gset string) (messageIds : list string)
    (st : tracker) (node : NodeRef) (out : list report) (r : report) :
  noReferenceDuringSSR.MemberExpression forbiddenGlobalNames messageIds st node = Ok out →
  r ∈ out →
  notReachable st node = false ∧ reported r = node.
Proof.
  unfold noReferenceDuringSSR.MemberExpression. intros Hrun Hr.
  destruct (notReachable st node); [simplify_eq; by apply elem_of_nil in Hr|].
  split; [done|].
  apply bind_inv in Hrun as ([] & _ & Hrun).
  - apply bind_inv in Hrun as (? & _ & (? & _ & [= <-])%bind_inv).
    by apply list_elem_of_singleton in Hr as ->.
  - apply bind_inv in Hrun as ([] & _ & Hrun);
      [|simplify_eq; by apply elem_of_nil in Hr].
    apply bind_inv in Hrun as (? & _ & (? & _ & [= <-])%bind_inv).
    by apply list_elem_of_singleton in Hr as ->.
Qed.

Lemma identifier_report_inv (forbiddenGlobalNames : gset string) (messageIds : list string)
    (st : tracker) (node : NodeRef) (out : list report) (r : report) :
  noReferenceDuringSSR.Identifier forbiddenGlobalNames messageIds st node = Ok out →
  r ∈ out →
  notReachable st node = false ∧ reported r = node.
Proof.
  unfold noReferenceDuringSSR.Identifier. intros Hrun Hr.
  destruct (notReachable st node); [simplify_eq; by apply elem_of_nil in Hr|].
  split; [done|].
  apply bind_inv in Hrun as ([] & _ & Hrun);
    [|simplify_eq; by apply elem_of_nil in Hr].
  apply bind_inv in Hrun as (? & _ & [= <-]).
  by apply list_elem_of_singleton in Hr as ->.
Qed.

Lemma node_env_report_inv
    (st : tracker) (node : NodeRef) (out : list report) (r : report) :
  noNodeEnvInSSR.MemberExpression st node = Ok out →
  r ∈ out →
  notReachable st node = false ∧ reported r = node.
Proof.
  unfold noNodeEnvInSSR.MemberExpression. intros Hrun Hr.
  destruct (notReachable st node); [simplify_eq; by apply elem_of_nil in Hr|].
  split; [done|].
  apply bind_inv in Hrun as ([] & _ & Hrun);
    [|simplify_eq; by apply elem_of_nil in Hr].
  apply bind_inv in Hrun as (? & _ & [= <-]).
  by apply list_elem_of_singleton in Hr as ->.
Qed.

End Provenance.

Section Reachability.
Context `{Host}.

Lemma identifier_name_VStr (id : NodeRef) (x : string) :
  field id "type" = VStr "Identifier" →
  field id "name" = VStr x →
  identifier_name (VRef id) = Some x.
Proof.
  intros Hty Hname. unfold identifier_name. by rewrite Hty, strict_eq_refl, Hname.
Qed.

Ltac name_facts :=
  js_facts;
  repeat match goal with
         | E : fieldv _ _ = VStr _ |- _ => apply fieldv_VStr in E as (? & ? & ?)
         | E : set_has _ _ = true |- _ => apply set_has_true in E as (? & ? & ?)
         | E : ?v = VRef _, E' : context [?v] |- _ => rewrite E in E'
         | E : get (VRef _) _ = Ok _ |- _ => rewrite get_ref in E
         | E : fieldv (VRef _) _ = _ |- _ => cbn [fieldv] in E
         | E : Ok _ = Ok _ |- _ => injection E as E
         | E : VRef _ = VRef _ |- _ => injection E as E
         end;
  simplify_eq.

Ltac named_node :=
  eexists; split; [eassumption|];
  unfold reachable_function, reachable_method, function_binding, reachable_name;
  repeat match goal with
         | E : field _ _ = _ |- _ => rewrite E
         end;
  cbn [String.eqb Ascii.eqb Bool.eqb orb andb fieldv];
  repeat match goal with
         | E : field _ _ = _ |- _ => rewrite E
         end;
  rewrite ?strict_eq_refl; cbn [andb];
  erewrite identifier_name_VStr by eassumption;
  by apply bool_decide_eq_true_2.

Lemma FunctionDeclaration_named (st st' : tracker) (node : NodeRef) :
  field node "type" = VStr "FunctionDeclaration" →
  withinLWCVisitors.FunctionDeclaration st node = Ok st' →
  st' = st
  ∨ (st' = set_reachableFunction (Some node) st
     ∧ ∃ mi, moduleInfo st = Some mi ∧ reachable_function mi node = true).
Proof.
  intros Hty. unfold withinLWCVisitors.FunctionDeclaration.
  intros ([] & Hc & [= <-])%bind_inv; [right|by left].
  split; [done|]. name_facts. named_node.
Qed.

Lemma FunctionExpression_named (st st' : tracker) (node : NodeRef) :
  field node "type" = VStr "FunctionExpression"
  ∨ field node "type" = VStr "ArrowFunctionExpression" →
  withinLWCVisitors.FunctionExpression st node = Ok st' →
  st' = st
  ∨ (st' = set_reachableFunction (Some node) st
     ∧ ∃ mi, moduleInfo st = Some mi ∧ reachable_function mi node = true).
Proof.
  intros Hty. unfold withinLWCVisitors.FunctionExpression.
  intros ([] & Hc & [= <-])%bind_inv; [right|by left].
  split; [done|]. name_facts. destruct Hty as [Hty|Hty]; named_node.
Qed.

Lemma MethodDefinition_named (st st' : tracker) (node : NodeRef) :
  field node "type" = VStr "MethodDefinition" →
  withinLWCVisitors.MethodDefinition st node = Ok st' →
  st' = st
  ∨ (st' = set_reachableMethod (Some node) st
     ∧ ∃ mi, moduleInfo st = Some mi ∧ reachable_method mi node = true).
Proof.
  intros Hty. unfold withinLWCVisitors.MethodDefinition.
  intros ([] & Hc & [= <-])%bind_inv; [right|by left].
  split; [done|]. name_facts. named_node.
Qed.

(** What the entry of a node of type [ty] can do to the function and
    method slots, and to the module information. *)
Lemma tracker_enter_named (ty : string) (st st' : tracker) (node : NodeRef) :
  field node "type" = VStr ty →
  tracker_enter ty st node = Ok st' →
  (ty = "Program" ∧ st' = set_moduleInfo (analyze node) st)
  ∨ (moduleInfo st' = moduleInfo st
     ∧ (reachableFunctionThatWeAreIn st' = reachableFunctionThatWeAreIn st
        ∨ (reachableFunctionThatWeAreIn st' = Some node
           ∧ ∃ mi, moduleInfo st = Some mi ∧ reachable_function mi node = true))
     ∧ (reachableMethodThatWeAreIn st' = reachableMethodThatWeAreIn st
        ∨ (reachableMethodThatWeAreIn st' = Some node
           ∧ ∃ mi, moduleInfo st = Some mi ∧ reachable_method mi node = true))).
Proof.
  intros Hty. unfold tracker_enter. dispatch ty.
  - unfold withinLWCVisitors.Program. intros [= <-]. by left.
  - unfold withinLWCVisitors.ClassDeclaration.
    destruct (the_moduleInfo st); [|discriminate]. cbn.
    intros [= <-]. right. case_bool_decide; cbn; auto.
  - subst ty. intros [->|[-> ?]]%FunctionDeclaration_named; [| |done]; right; cbn; auto.
  - subst ty. intros [->|[-> ?]]%FunctionExpression_named; [| |by left]; right; cbn; auto.
  - subst ty. intros [->|[-> ?]]%FunctionExpression_named; [| |by right]; right; cbn; auto.
  - subst ty. intros [->|[-> ?]]%MethodDefinition_named; [| |done]; right; cbn; auto.
  - unfold withinLWCVisitors.IfStatement. intros [= <-]. right.
    destruct (isSSREscape node); cbn; auto.
  - intros [= <-]. auto.
Qed.

Lemma slots_named_step (r : NodeRef) (st st' : tracker) (ev : event) :
  slots_named r st →
  (∀ m, ev = Enter m → field m "type" = VStr "Program" → m = r) →
  tracker_step st ev = Ok st' →
  slots_named r st'.
Proof.
  intros (Hmi & HF & HM) Hprog Hstep.
  destruct ev as [m|m]; cbn [tracker_step] in Hstep.
  - destruct (field m "type") as [| | | |ty|] eqn:Hty; try (simplify_eq; done).
    destruct (tracker_enter_named ty st st' m Hty Hstep)
      as [[-> ->]|(Hsame & HF' & HM')].
    + assert (m = r) as -> by by apply Hprog.
      split; [by right|]. done.
    + assert (∀ mi, moduleInfo st = Some mi → mi = analyze r) as Hr.
      { intros mi Hst. destruct Hmi; congruence. }
      split; [by rewrite Hsame|]. split.
      * intros f Hf. destruct HF' as [HF'|(HF' & mi & Hst & Hreach)].
        -- apply HF. congruence.
        -- rewrite <- (Hr mi Hst). congruence.
      * intros f Hf. destruct HM' as [HM'|(HM' & mi & Hst & Hreach)].
        -- apply HM. congruence.
        -- rewrite <- (Hr mi Hst). congruence.
  - destruct (field m "type") as [| | | |ty|] eqn:Hty; try (simplify_eq; done).
    destruct (tracker_exit_slots ty st st' m Hstep) as (HF' & HM' & _).
    destruct (tracker_exit_class ty st st' m Hstep) as [Hsame _].
    split; [by rewrite Hsame|]. split.
    + intros f Hf. apply HF. destruct HF' as [?|[? _]]; congruence.
    + intros f Hf. apply HM. destruct HM' as [?|[? _]]; congruence.
Qed.

Lemma program_events_root (t : tree) (pre post : list event) (ev : event) (m : NodeRef) :
  single_program t = true →
  events t = pre ++ ev :: post →
  ev = Enter m →
  field m "type" = VStr "Program" →
  m = root t.
Proof.
  intros Hsingle Hevents -> Hty. apply single_program_root; [done| |done].
  apply Enter_events_nodes. rewrite Hevents. apply elem_of_app. right. by left.
Qed.

Lemma slots_named_run (t : tree) (pre post : list event) (st : tracker) :
  single_program t = true →
  events t = pre ++ post →
  run tracker_step reachableDuringSSRPartial pre = Ok st →
  slots_named (root t) st.
Proof.
  intros Hsingle. revert st post.
  induction pre as [|ev pre IH] using rev_ind; intros st post Hevents Hrun.
  - cbn in Hrun. simplify_eq. split; [by left|]. split; discriminate.
  - rewrite run_snoc in Hrun. apply bind_inv in Hrun as (st0 & Hrun0 & Hstep).
    rewrite <- app_assoc in Hevents.
    eapply slots_named_step; [by eapply IH| |exact Hstep].
    intros m. by eapply program_events_root.
Qed.

Lemma class_contained_run (t : tree) (pre post : list event) (st : tracker) :
  NoDup (nodes t) →
  single_program t = true →
  events t = pre ++ post →
  run tracker_step reachableDuringSSRPartial pre = Ok st →
  class_contained (root t) pre st.
Proof.
  intros Hnodup Hsingle. pose proof (ordered_events t Hnodup) as Hord.
  revert st post.
  induction pre as [|ev pre IH] using rev_ind; intros st post Hevents Hrun.
  - cbn in Hrun. simplify_eq. split; [by left|]. discriminate.
  - rewrite run_snoc in Hrun. apply bind_inv in Hrun as (st0 & Hrun0 & Hstep).
    rewrite <- app_assoc in Hevents.
    eapply class_contained_step; [by eapply IH| | |exact Hstep].
    + intros m -> Hex. apply list_elem_of_lookup in Hex as [j Hj].
      assert (length pre < j); [|apply lookup_lt_Some in Hj; lia].
      apply (Hord _ _ m); rewrite Hevents.
      * by rewrite lookup_app_r, Nat.sub_diag by lia.
      * rewrite lookup_app_l by (by eapply lookup_lt_Some). done.
    + intros m. by eapply program_events_root.
Qed.

Lemma run_app {S : Type} (step : S → event → result S) (s s' : S)
    (a b : list event) :
  run step s (a ++ b) = Ok s' →
  ∃ s1, run step s a = Ok s1 ∧ run step s1 b = Ok s'.
Proof.
  revert s. induction a as [|ev a IH]; intros s Hrun; cbn [run app] in *.
  - by exists s.
  - apply bind_inv in Hrun as (s0 & Hstep & Hrun).
    destruct (IH s0 Hrun) as (s1 & Ha & Hb).
    exists s1. by rewrite Hstep.
Qed.

Lemma guard_kept_run (st st' : tracker) (mid : list event) (g : NodeRef) :
  skippedBlockThatWeAreIn st = Some g →
  isSSREscape g = true →
  no_guard_left mid = true →
  run tracker_step st mid = Ok st' →
  isInsideSkippedBlock st' = true.
Proof.
  revert st g. induction mid as [|ev mid IH]; intros st g Hg Hesc Hmid Hrun;
    cbn [run] in Hrun.
  - simplify_eq. unfold isInsideSkippedBlock. rewrite Hg.
    by apply bool_decide_eq_true_2.
  - apply bind_inv in Hrun as (st1 & Hstep & Hrun).
    cbn [no_guard_left forallb] in Hmid.
    apply andb_true_iff in Hmid as [Hev%negb_true_iff Hmid].
    destruct (tracker_step_guard_kept st st1 ev g Hstep Hg Hesc Hev)
      as (g' & Hg' & Hesc').
    by apply (IH st1 g').
Qed.

(** A recognised guard that is entered is recorded, so the walk counts as
    inside a skipped block until a recognised guard is left. *)
Lemma guard_entered_skips (st st' : tracker) (a b : list event) (g : NodeRef) :
  field g "type" = VStr "IfStatement" →
  isSSREscape g = true →
  no_guard_left b = true →
  run tracker_step st (a ++ Enter g :: b) = Ok st' →
  isInsideSkippedBlock st' = true.
Proof.
  intros Hty Hesc Hb (sa & _ & Hrun)%run_app. cbn [run tracker_step] in Hrun.
  rewrite Hty in Hrun. unfold tracker_enter in Hrun.
  cbn [String.eqb Ascii.eqb Bool.eqb] in Hrun.
  unfold withinLWCVisitors.IfStatement in Hrun. rewrite Hesc, bind_Ok in Hrun.
  by apply (guard_kept_run (set_skippedBlock (Some g) sa) st' b g).
Qed.

(** A report comes from a callback that found the position reachable:
    the node was entered with a tracker for which [notReachable] is
    false. *)
Lemma report_passed_gate
    (forbiddenGlobalNames : gset string) (messageIds : list string)
    (pre : list event) (st : tracker) (out : list report) (r : report) :
  lint_noReferenceDuringSSR forbiddenGlobalNames messageIds pre = Ok (st, out)
  ∨ lint_noNodeEnvInSSR pre = Ok (st, out) →
  r ∈ out →
  ∃ p1 p2 st1,
    pre = p1 ++ Enter (reported r) :: p2
    ∧ run tracker_step reachableDuringSSRPartial p1 = Ok st1
    ∧ notReachable st1 (reported r) = false.
Proof.
  intros Hrun Hin.
  assert (∃ p1 p2 node st1,
            pre = p1 ++ Enter node :: p2
            ∧ run tracker_step reachableDuringSSRPartial p1 = Ok st1
            ∧ notReachable st1 node = false
            ∧ reported r = node)
    as (p1 & p2 & node & st1 & -> & Hrun1 & Hgate & <-);
    [|by exists p1, p2, st1].
  destruct Hrun as [Hrun|Hrun].
  - destruct (rule_run_provenance _ pre st out
                (noReferenceDuringSSR_beside_tracker forbiddenGlobalNames messageIds)
                Hrun) as [_ Hprov].
    destruct (Hprov r Hin) as (p1 & p2 & node & ty & cb & st1 & o
                               & -> & Hrun1 & Hty & Hcb & Hcall & Ho).
    exists p1, p2, node, st1. split; [done|]. split; [done|].
    revert Hcb. unfold noReferenceDuringSSR_own.
    destruct (String.eqb ty "MemberExpression").
    + intros [= <-]. by eapply member_report_inv.
    + destruct (String.eqb ty "Identifier"); [|discriminate].
      intros [= <-]. by eapply identifier_report_inv.
  - destruct (rule_run_provenance _ pre st out noNodeEnvInSSR_beside_tracker Hrun)
      as [_ Hprov].
    destruct (Hprov r Hin) as (p1 & p2 & node & ty & cb & st1 & o
                               & -> & Hrun1 & Hty & Hcb & Hcall & Ho).
    exists p1, p2, node, st1. split; [done|]. split; [done|].
    revert Hcb. unfold noNodeEnvInSSR_own.
    destruct (String.eqb ty "MemberExpression"); [|discriminate].
    intros [= <-]. by eapply node_env_report_inv.
Qed.

(** X13. Along every traversal of a tree of distinct nodes whose only
    [Program] node is its root, every report of [noReferenceDuringSSR]
    and of [noNodeEnvInSSR] is for a node that was visited at module
    scope, or while a method definition was open whose key is an
    identifier that the analyzer named in [methodsReachableDuringSSR], the
    component class being open as well, or while a function was open that
    is declared under, or bound to, a name that the analyzer named in
    [moduleScopedFunctionsReachableDuringSSR].  Moreover the node does not
    lie in a recognised escape guard unless a recognised escape guard has
    been left since that guard was entered. *)
Theorem reports_only_where_reachable
    (forbiddenGlobalNames : gset string) (messageIds : list string)
    (t : tree) (pre post : list event) (st : tracker) (out : list report)
    (r : report) :
  NoDup (nodes t) →
  single_program t = true →
  events t = pre ++ post →
  lint_noReferenceDuringSSR forbiddenGlobalNames messageIds pre = Ok (st, out)
  ∨ lint_noNodeEnvInSSR pre = Ok (st, out) →
  r ∈ out →
  ∃ p1 p2,
    pre = p1 ++ Enter (reported r) :: p2
    ∧ (inModuleScope (reported r) = true
       ∨ (∃ m c, open_in p1 m
                 ∧ reachable_method (analyze (root t)) m = true
                 ∧ lwcClassDeclaration (analyze (root t)) = Some c
                 ∧ open_in p1 c)
       ∨ (∃ f, open_in p1 f ∧ reachable_function (analyze (root t)) f = true))
    ∧ (∀ a g b,
         p1 = a ++ Enter g :: b →
         field g "type" = VStr "IfStatement" →
         isSSREscape g = true →
         no_guard_left b = false).
Proof.
  intros Hnodup Hsingle Hevents Hrun Hin.
  destruct (report_passed_gate _ _ pre st out r Hrun Hin)
    as (p1 & p2 & st1 & -> & Hrun1 & Hgate).
  rewrite <- app_assoc in Hevents.
  apply notReachable_false_inv in Hgate as [Hskip Hpos].
  exists p1, p2. split; [done|]. split.
  - destruct (open_prefix t p1 _ st1 Hnodup Hevents Hrun1) as (HF & HM & _).
    destruct (slots_named_run t p1 _ st1 Hsingle Hevents Hrun1) as (_ & HFn & HMn).
    destruct (class_contained_run t p1 _ st1 Hnodup Hsingle Hevents Hrun1)
      as [_ Hclass].
    destruct Hpos as [Hm|[Hf|Hs]]; [right; left|right; right|by left].
    + unfold isInsideReachableMethod in Hm.
      apply andb_true_iff in Hm as [Hlwc [m Hm]%bool_decide_eq_true].
      destruct (HM m Hm) as (Hen & Hex & _).
      destruct (Hclass Hlwc) as (_ & c & Hc & Hopen & _).
      exists m, c. split; [by split|]. split; [by apply HMn|]. done.
    + apply bool_decide_eq_true in Hf as [f Hf].
      destruct (HF f Hf) as (Hen & Hex & _).
      exists f. split; [by split|]. by apply HFn.
  - intros a g b -> Hty Hesc.
    destruct (no_guard_left b) eqn:Hb; [|done].
    rewrite (guard_entered_skips _ st1 a b g Hty Hesc Hb Hrun1) in Hskip.
    discriminate.
Qed.

End Reachability.

(** The position of [window.foo] in [helper] is none of those where a
    rule reports: it is not at module scope, and the analyzer named no
    method and no function.  Nothing is reported there. *)
Example unnamed_function_not_reported :
  violations (lint_noReferenceDuringSSR (H := Unnamed.host) {[ "window" ]}
                ["prohibitedBrowserAPIUsage"; "prohibitedBrowserAPIUsageGlobal"]
                (events Unnamed.program)) = Ok []
  ∧ violations (lint_noNodeEnvInSSR (H := Unnamed.host) (events Unnamed.program)) = Ok []
  ∧ inModuleScope (H := Unnamed.host) 3 = false
  ∧ (∀ m, reachable_method (H := Unnamed.host) (analyze (Host := Unnamed.host) 0) m = false)
  ∧ (∀ f, reachable_function (H := Unnamed.host) (analyze (Host := Unnamed.host) 0) f = false).
Proof.
  split; [by vm_compute|]. split; [by vm_compute|]. split; [by vm_compute|]. split.
  - intros m. unfold reachable_method.
    destruct (identifier_name _); [|apply andb_false_r].
    rewrite bool_decide_eq_false_2 by apply not_elem_of_empty. apply andb_false_r.
  - intros f. unfold reachable_function, reachable_name.
    destruct (function_binding f); [|done].
    apply bool_decide_eq_false_2, not_elem_of_empty.
Qed.

(** * The further properties on the sample module *)

Section FurtherOnTheSample.
Import Sample.

Ltac by_eval := vm_compute; first [reflexivity | discriminate | done].

(** Witness of X2: [window.foo] (node 103) at module scope. *)
Lemma access_on_forbidden_global_reported_witness :
  noReferenceDuringSSR.MemberExpression forbiddenGlobalNames messageIds after_program 103
  = Ok [kind_A 103 "window"].
Proof.
  etransitivity; [|by_eval].
  refine (access_on_forbidden_global_reported forbiddenGlobalNames messageIds
            after_program 103 100 104 "window" _ _ _ _ _ _ _ _ _ _); by_eval.
Defined.

(** Witness of X4: the report for [globalThis.document] (node 12). *)
Lemma member_report_sound_witness :
  notReachable inside_method 12 = false.
Proof.
  refine (proj1 (member_report_sound forbiddenGlobalNames messageIds inside_method 12
                   [ {| messageId := VStr "prohibitedBrowserAPIUsageGlobal";
                        reported := 12;
                        data_identifier := VStr "document";
                        data_property := Some (VStr "addEventListener") |} ]
                   _ _)); by_eval.
Defined.

(** Witness of X5: the argument of [doSomethingWith(window)] (node 32). *)
Lemma identifier_reported_iff_witness :
  [kind_A 32 "window"] = []
  ∨ [kind_A 32 "window"]
    = [ {| messageId := at_ messageIds 0;
           reported := 32;
           data_identifier := field 32 "name";
           data_property := None |} ].
Proof.
  refine (proj2 (identifier_reported_iff forbiddenGlobalNames messageIds inside_method 32
                   [kind_A 32 "window"] _)); by_eval.
Defined.

(** Witness of X6: [process.env.NODE_ENV] (node 70) inside [foo]. *)
Lemma node_env_reported_iff_witness :
  notReachable inside_function 70 = false.
Proof.
  refine (proj1 (proj1 (proj1 (node_env_reported_iff inside_function 70
            [ {| messageId := VStr "nodeEnvFound";
                 reported := 70;
                 data_identifier := VStr "NODE_ENV";
                 data_property := None |} ] _)) _)); by_eval.
Defined.

(** Witness of X7: entering [connectedCallback] (node 2) inside the
    component class. *)
Lemma reachable_method_slot_witness :
  withinLWCVisitors.MethodDefinition (set_insideLWC true after_program) 2
  = Ok (set_reachableMethod (Some 2) (set_insideLWC true after_program)).
Proof.
  etransitivity; [|by_eval].
  refine (proj1 (reachable_method_slot (set_insideLWC true after_program) 2 3
                   (analyze 0) _ _)); by_eval.
Defined.

(** Witness of X8: the class declaration (node 1) handed to a fresh
    tracker. *)
Lemma callbacks_need_Program_witness :
  withinLWCVisitors.ClassDeclaration reachableDuringSSRPartial 1 = Throw TypeError.
Proof.
  refine (proj1 (callbacks_need_Program reachableDuringSSRPartial 1 _)). by_eval.
Defined.

(** Witness of X9: inside [foo] (node 110), across the nested reachable
    function [bar] (node 112). *)
Lemma reachable_function_persists_witness :
  reachableFunctionThatWeAreIn inside_function = Some 110
  ∧ isInsideReachableFunction inside_function = true.
Proof.
  refine (reachable_function_persists inside_function inside_function
            [Enter 112; Enter 113; Exit 113; Exit 112] 110 _ _ _).
  - by_eval.
  - apply (bool_decide_unpack _). by_eval.
  - by_eval.
Defined.

(** Witness of X10: inside the guard at node 100, before any guard is
    left, the access [window.foo] (node 103) is silent. *)
Lemma skipped_block_persists_witness :
  isInsideSkippedBlock (set_skippedBlock (Some 100) after_program) = true
  ∧ noReferenceDuringSSR.MemberExpression forbiddenGlobalNames messageIds
      (set_skippedBlock (Some 100) after_program) 103 = Ok []
  ∧ noReferenceDuringSSR.Identifier forbiddenGlobalNames messageIds
      (set_skippedBlock (Some 100) after_program) 103 = Ok []
  ∧ noPropertyAccessDuringSSR.MemberExpression forbiddenPropertyNames
      (set_skippedBlock (Some 100) after_program) 103 = Ok []
  ∧ noNodeEnvInSSR.MemberExpression (set_skippedBlock (Some 100) after_program) 103
    = Ok [].
Proof.
  refine (skipped_block_persists forbiddenGlobalNames messageIds forbiddenPropertyNames
            (set_skippedBlock (Some 100) after_program)
            (set_skippedBlock (Some 100) after_program)
            [Enter 104; Exit 104] 100 103 _ _ _ _); by_eval.
Defined.

(** Witness of X11: the first 52 events of the sample end with the entry
    into the component class (node 1). *)
Lemma insideLWC_contained_witness :
  ∃ c, lwcClassDeclaration (analyze (root program)) = Some c
       ∧ open_in (take 52 (events program)) c.
Proof.
  refine (insideLWC_contained program (take 52 (events program))
            (drop 52 (events program)) (set_insideLWC true after_program)
            _ _ _ _ _).
  - apply (bool_decide_unpack _). by_eval.
  - by_eval.
  - by_eval.
  - by_eval.
  - by_eval.
Defined.

(** Witness of X12: [this.template] in [connectedCallback] (node 40). *)
Lemma this_reports_inside_method_witness :
  ∃ p1 p2 m,
    events program = p1 ++ Enter 40 :: p2
    ∧ field 40 "type" = VStr "MemberExpression"
    ∧ fieldv (field 40 "object") "type" = VStr "ThisExpression"
    ∧ field m "type" = VStr "MethodDefinition"
    ∧ open_in p1 m.
Proof.
  refine (this_reports_inside_method forbiddenPropertyNames program
            (events program) [] after_program [40] 40 _ _ _ _).
  - apply (bool_decide_unpack _). by_eval.
  - by_eval.
  - by_eval.
  - apply list_elem_of_In. vm_compute. auto.
Defined.

(** Witness of X13: the report for [process.env.NODE_ENV] (node 70), in
    function [foo]. *)
Lemma reports_only_where_reachable_witness :
  ∃ p1 p2,
    events program = p1 ++ Enter 70 :: p2
    ∧ (inModuleScope 70 = true
       ∨ (∃ m c, open_in p1 m
                 ∧ reachable_method (analyze (root program)) m = true
                 ∧ lwcClassDeclaration (analyze (root program)) = Some c
                 ∧ open_in p1 c)
       ∨ (∃ f, open_in p1 f ∧ reachable_function (analyze (root program)) f = true))
    ∧ (∀ a g b,
         p1 = a ++ Enter g :: b →
         field g "type" = VStr "IfStatement" →
         isSSREscape g = true →
         no_guard_left b = false).
Proof.
  refine (reports_only_where_reachable forbiddenGlobalNames messageIds program
            (events program) [] after_program
            [ {| messageId := VStr "nodeEnvFound";
                 reported := 70;
                 data_identifier := VStr "NODE_ENV";
                 data_property := None |} ]
            {| messageId := VStr "nodeEnvFound";
               reported := 70;
               data_identifier := VStr "NODE_ENV";
               data_property := None |} _ _ _ _ _).
  - apply (bool_decide_unpack _). by_eval.
  - by_eval.
  - by_eval.
  - right. by_eval.
  - apply list_elem_of_In. vm_compute. auto.
Defined.

Example sample_reachable :
  reachable_function (analyze 0) 110 = true
  ∧ reachable_function (analyze 0) 112 = true
  ∧ reachable_function (analyze 0) 142 = true
  ∧ reachable_function (analyze 0) 35 = false
  ∧ reachable_method (analyze 0) 2 = true
  ∧ reachable_method (analyze 0) 110 = false.
Proof. repeat split; by_eval. Qed.

(** Witness of X14: inside [connectedCallback], across the call
    [doSomethingWith(window)] (node 30). *)
Lemma reachable_method_persists_witness :
  isInsideReachableMethod inside_method = true.
Proof.
  refine (reachable_method_persists inside_method inside_method
            [Enter 30; Enter 31; Exit 31; Enter 32; Exit 32; Exit 30] _ _ _);
    by_eval.
Defined.

End FurtherOnTheSample.

(** Witness of X3: [globalThis.addEventListener()] at module scope
    (node 2 of the one-statement file) is reported with the name of the
    property; the null-safe [globalThis?.addEventListener()] (node 131 of
    the sample) is not. *)
Lemma access_on_globalThis_witness :
  noReferenceDuringSSR.MemberExpression (H := TopLevel.host)
    Sample.forbiddenGlobalNames Sample.messageIds
    (set_moduleInfo (analyze (Host := TopLevel.host) 0) reachableDuringSSRPartial) 2
  = Ok [Sample.kind_A 2 "addEventListener"]
  ∧ noReferenceDuringSSR.MemberExpression (H := Sample.host)
      Sample.forbiddenGlobalNames Sample.messageIds Sample.inside_method 131
    = Ok [].
Proof.
  split.
  - etransitivity; [|vm_compute; reflexivity].
    refine (access_on_globalThis (H := TopLevel.host)
              Sample.forbiddenGlobalNames Sample.messageIds
              (set_moduleInfo (analyze (Host := TopLevel.host) 0) reachableDuringSSRPartial)
              2 1 3 4 _ _ _ _ _ _ _ _ _ _);
      vm_compute; first [reflexivity | discriminate | done].
  - etransitivity; [|vm_compute; reflexivity].
    refine (access_on_globalThis (H := Sample.host)
              Sample.forbiddenGlobalNames Sample.messageIds Sample.inside_method
              131 130 132 133 _ _ _ _ _ _ _ _ _ _);
      vm_compute; first [reflexivity | discriminate | done].
Defined.
